(** * Storage engine of the portfolio site: MemStorage and DatabaseStorage

    A shallow embedding of [server/storage.ts] (class [MemStorage]) and of
    the [DatabaseStorage] class that implements the same [IStorage]
    interface over drizzle-orm, together with the record types that
    [shared/schema.ts] infers from its tables.

    Every method of the two classes is an [async] function without an
    inner suspension point that touches the store, so a call runs to its
    end on the state it finds: a method is a function from the state to a
    settled promise and the next state. *)

From Stdlib Require Import ZArith List String Bool Lia Permutation Sorted.
From Stdlib Require Import DecimalString Ascii.
Import ListNotations.

Open Scope string_scope.
Open Scope list_scope.
Open Scope Z_scope.

(** ** JavaScript values the storage code relies on *)

(** A [Date] is its time value, the number [getTime()] returns. *)
Record Date := mkDate { getTime : Z }.

(** *** Numbers in template literals

    [`${id}`] is [Number::toString] of ECMA-262 (6.1.6.1.20).  A number is
    a double; here it is given by the integer it holds.  The digits printed
    are the shortest decimal that reads back as the same double, so the
    integers up to [2^53] print in full, larger ones print their
    significant digits followed by zeros, and from [10^21] on the exponent
    form is used ([1e+21]).  [NaN] and fractions are not integers and have
    no place in [Z]: the ids of this development are the integers. *)

(** Decimal digits of a natural number. *)
Definition digitsOf (n : Z) : string :=
  NilZero.string_of_int (Z.to_int n).

(** Distance between the doubles around [x > 0]: the significand has 53
    bits. *)
Definition ulp (x : Z) : Z := 2 ^ Z.max 0 (Z.log2 x - 52).

(** The double that a numeric literal or [parseInt] yields for the integer
    [x > 0]: the nearest one, the one with an even significand when two are
    equally near.  An integer below [2^53] is a double itself. *)
Definition toDouble (x : Z) : Z :=
  let u := ulp x in
  let q := x / u in
  let r := x mod u in
  if (u <? 2 * r) || ((u =? 2 * r) && Z.odd q) then (q + 1) * u else q * u.

(** Whether the decimal [c] reads back as the double [x]: [c] lies within
    half a gap of [x], the bounds included when the significand of [x] is
    even.  Below a power of two the gap is half as wide.  The comparison is
    made on four times the values, to stay within the integers. *)
Definition roundsTo (x c : Z) : bool :=
  let u := ulp x in
  let m := x / u in
  let below := if m =? 2 ^ 52 then u else 2 * u in
  if Z.even m
  then (4 * x - below <=? 4 * c) && (4 * c <=? 4 * x + 2 * u)
  else (4 * x - below <? 4 * c) && (4 * c <? 4 * x + 2 * u).

(** The fewest digits [s] and the power [p] with [s * 10^p] reading back
    as [x], tried from the largest power down; of two candidates the one
    nearer to [x], and the even one when they are equally near. *)
Fixpoint shortest (p : nat) (x : Z) : Z * Z :=
  let t := 10 ^ Z.of_nat p in
  let s := x / t in
  let lower := (0 <? s) && roundsTo x (s * t) in
  let upper := roundsTo x ((s + 1) * t) in
  let nearer :=
    if x - s * t =? (s + 1) * t - x then Z.even s
    else x - s * t <? (s + 1) * t - x in
  if lower && (negb upper || nearer) then (s, Z.of_nat p)
  else if upper then (s + 1, Z.of_nat p)
  else match p with
       | O => (x, 0)
       | S p' => shortest p' x
       end.

Fixpoint zeros (n : nat) : string :=
  match n with
  | O => ""
  | S n' => String "0" (zeros n')
  end.

(** With [k] digits and [n = k + p]: the digits and [p] zeros when
    [n <= 21], otherwise the first digit, a point before the others if
    there are any, and [e+] with [n - 1].  A double of [2^1024] or more is
    [Infinity]. *)
Definition positive_toString (x : Z) : string :=
  let d := toDouble x in
  if 1024 <=? Z.log2 d then "Infinity"
  else
    let (s, p) := shortest (String.length (digitsOf d)) d in
    let digits := digitsOf s in
    let n := Z.of_nat (String.length digits) + p in
    if n <=? 21 then digits ++ zeros (Z.to_nat p)
    else match digits with
         | String c "" => String c ("e+" ++ digitsOf (n - 1))
         | String c rest => String c ("." ++ rest ++ "e+" ++ digitsOf (n - 1))
         | "" => ""
         end.

Definition Number_toString (n : Z) : string :=
  if n =? 0 then "0"
  else if n <? 0 then "-" ++ positive_toString (- n)
  else positive_toString n.

Arguments Number_toString : simpl never.

(** [new Error(message)]. *)
Inductive Error := mkError (message : string).

(** [s || null] and [s || fallback] on a string that may be missing
    ([undefined] or [null], here [None]): the empty string is falsy too. *)
Definition orNull (v : option string) : option string :=
  match v with
  | Some s => if (s =? "")%string then None else Some s
  | None => None
  end.

Definition orElse (v : option string) (fallback : string) : string :=
  match orNull v with
  | Some s => s
  | None => fallback
  end.

(** [{...existing, ...data}] field by field: a key that [data] carries
    wins, a key it lacks leaves the old value. *)
Definition spread {A : Type} (old : A) (supplied : option A) : A :=
  match supplied with
  | Some v => v
  | None => old
  end.

(** A later property of an object literal replaces what an earlier spread
    left under the same key, if it left anything. *)
Definition overwrite {A : Type} (copied : option A) (literal : A) : A := literal.

(** *** [Map]: entries in insertion order

    [set] on a key already present keeps the entry's position, [set] on a
    new key appends, [delete] removes the entry, [values()] walks the
    entries in insertion order. *)
Module JsMap.
Section Ops.
Context {K V : Type}.
Variable eqb : K -> K -> bool.

Fixpoint get (k : K) (m : list (K * V)) : option V :=
  match m with
  | [] => None
  | (k', v) :: m' => if eqb k k' then Some v else get k m'
  end.

Fixpoint set (k : K) (v : V) (m : list (K * V)) : list (K * V) :=
  match m with
  | [] => [(k, v)]
  | (k', v') :: m' =>
      if eqb k k' then (k, v) :: m' else (k', v') :: set k v m'
  end.

Definition delete (k : K) (m : list (K * V)) : list (K * V) :=
  filter (fun e => negb (eqb k (fst e))) m.

Definition keys (m : list (K * V)) : list K := map fst m.
Definition values (m : list (K * V)) : list V := map snd m.

(** [Array.prototype.find]. *)
Definition find (f : V -> bool) (l : list V) : option V := List.find f l.
End Ops.
End JsMap.

(** *** [Array.prototype.sort(compare)]

    The sort is stable: [x] stays in front of the elements it does not
    compare greater than.  Insertion from the right end realises exactly
    that order, and [stable_sort_unique] below shows that no stable sort
    can return another list. *)
Section ArraySort.
Context {A : Type}.
Variable compare : A -> A -> Z.

Fixpoint sort_insert (x : A) (l : list A) : list A :=
  match l with
  | [] => [x]
  | y :: l' => if compare x y <=? 0 then x :: l else y :: sort_insert x l'
  end.

Fixpoint Array_sort (l : list A) : list A :=
  match l with
  | [] => []
  | x :: l' => sort_insert x (Array_sort l')
  end.
End ArraySort.

(** The order a comparator [(a, b) => key(b) - key(a)] asks for: no
    element is followed by one with a greater key. *)
Definition descending {A : Type} (key : A -> Z) (a b : A) : Prop := key b <= key a.

(** ** Record types of [shared/schema.ts]

    A nullable column is an [option]; in an insert type [None] also stands
    for a key that is not supplied.  The stores below only ever put
    [new Date()] into the [createdAt] and [updatedAt] of projects, media
    and contacts, and the listings read it as [createdAt!], so those
    fields are plain dates; the user's [createdAt] is read through [||]
    and keeps its nullable type. *)

Module User.
Record t := mk {
    id : string;
    email : option string;
    firstName : option string;
    lastName : option string;
    profileImageUrl : option string;
    createdAt : option Date;
    updatedAt : option Date }.
End User.

(** [UpsertUser]: the users columns without [createdAt] and [updatedAt];
    [id] has a column default and is optional. *)
Module UpsertUser.
Record t := mk {
    id : option string;
    email : option string;
    firstName : option string;
    lastName : option string;
    profileImageUrl : option string }.
End UpsertUser.

Module Project.
Record t := mk {
    id : Z;
    title : string;
    slug : string;
    description : string;
    content : string;
    featuredImage : option string;
    category : string;
    tags : option (list string);
    status : string;
    createdAt : Date;
    updatedAt : Date;
    authorId : option string }.
End Project.

(** [InsertProject]: the projects columns without [id], [createdAt] and
    [updatedAt]. *)
Module InsertProject.
Record t := mk {
    title : string;
    slug : string;
    description : string;
    content : string;
    featuredImage : option string;
    category : string;
    tags : option (list string);
    status : option string;
    authorId : option string }.
End InsertProject.

(** [Partial<InsertProject>] as [insertProjectSchema.partial().parse]
    yields it: every key may be left out ([None]); a nullable column that
    is supplied may be supplied as [null] ([Some None]). *)
Module PartialInsertProject.
Record t := mk {
    title : option string;
    slug : option string;
    description : option string;
    content : option string;
    featuredImage : option (option string);
    category : option string;
    tags : option (option (list string));
    status : option string;
    authorId : option (option string) }.

Definition empty : t :=
    mk None None None None None None None None None.
End PartialInsertProject.

Module Media.
Record t := mk {
    id : Z;
    filename : string;
    originalName : string;
    mimeType : string;
    size : string;
    url : string;
    altText : option string;
    createdAt : Date;
    uploadedBy : option string }.
End Media.

Module InsertMedia.
Record t := mk {
    filename : string;
    originalName : string;
    mimeType : string;
    size : string;
    url : string;
    altText : option string;
    uploadedBy : option string }.
End InsertMedia.

Module ContactSubmission.
Record t := mk {
    id : Z;
    name : string;
    email : string;
    subject : string;
    message : string;
    status : string;
    createdAt : Date }.
End ContactSubmission.

(** [InsertContact]: name, email, subject and message.  The type leaves
    [id], [status] and [createdAt] out, yet an object handed to
    [createContact] may still own properties under these names, and an
    object spread copies every own property: [id], [status] and
    [createdAt] are those properties when the payload carries them.  A
    payload of the declared type, such as [insertContactSchema.parse]
    returns, carries none of the three. *)
Module InsertContact.
Record t := mk {
    name : string;
    email : string;
    subject : string;
    message : string;
    id : option Z;
    status : option string;
    createdAt : option Date }.
End InsertContact.

(** ** Settled promises over a store

    [ticks] counts the [new Date()] evaluated so far; the [n]-th one
    returns [clock n], whatever the system clock shows at that moment. *)

Inductive Settled (A : Type) : Type :=
| Fulfilled (value : A)
| Rejected (reason : Error).
Arguments Fulfilled {A} value.
Arguments Rejected {A} reason.

Record World (S : Type) := mkWorld { ticks : nat; store : S }.
Arguments mkWorld {S} ticks store.
Arguments ticks {S} w.
Arguments store {S} w.

Definition Async (S A : Type) : Type := World S -> Settled A * World S.

Section Async.
Context {S : Type}.
Variable clock : nat -> Date.

Definition ret {A} (a : A) : Async S A := fun w => (Fulfilled a, w).

Definition bind {A B} (m : Async S A) (k : A -> Async S B) : Async S B :=
  fun w =>
    match m w with
    | (Fulfilled a, w') => k a w'
    | (Rejected e, w') => (Rejected e, w')
    end.

(** [throw e] inside an async function: the promise is rejected. *)
Definition throw {A} (e : Error) : Async S A := fun w => (Rejected e, w).

(** [new Date()]. *)
Definition newDate : Async S Date :=
  fun w => (Fulfilled (clock (ticks w)), mkWorld (Datatypes.S (ticks w)) (store w)).

Definition gets {A} (f : S -> A) : Async S A :=
  fun w => (Fulfilled (f (store w)), w).

Definition modify (f : S -> S) : Async S unit :=
  fun w => (Fulfilled tt, mkWorld (ticks w) (f (store w))).
End Async.

Declare Scope async_scope.
Delimit Scope async_scope with async.
Notation "x <- m ;; k" := (bind m (fun x => k))
  (at level 61, m at next level, right associativity) : async_scope.
Notation "m ;; k" := (bind m (fun _ => k))
  (at level 61, right associativity) : async_scope.
Open Scope async_scope.

(** ** Partial update of a project

    [{ ...existing, ...projectData, updatedAt }] in [MemStorage] and
    [.set({ ...project, updatedAt })] in [DatabaseStorage] write the same
    columns: the ones the payload carries, and [updatedAt]. *)
Definition mergeProject (existing : Project.t) (projectData : PartialInsertProject.t)
  (updatedAt : Date) : Project.t :=
  {| Project.id := Project.id existing;
     Project.title := spread (Project.title existing) (PartialInsertProject.title projectData);
     Project.slug := spread (Project.slug existing) (PartialInsertProject.slug projectData);
     Project.description :=
       spread (Project.description existing) (PartialInsertProject.description projectData);
     Project.content := spread (Project.content existing) (PartialInsertProject.content projectData);
     Project.featuredImage :=
       spread (Project.featuredImage existing) (PartialInsertProject.featuredImage projectData);
     Project.category :=
       spread (Project.category existing) (PartialInsertProject.category projectData);
     Project.tags := spread (Project.tags existing) (PartialInsertProject.tags projectData);
     Project.status := spread (Project.status existing) (PartialInsertProject.status projectData);
     Project.createdAt := Project.createdAt existing;
     Project.updatedAt := updatedAt;
     Project.authorId :=
       spread (Project.authorId existing) (PartialInsertProject.authorId projectData) |}.

(** ** [MemStorage]: the in-process store of [server/storage.ts] *)

Module MemStorage.

(** The private fields of the class.  Ids are JavaScript numbers that the
    counters step through one by one from 1; they are integers here, as
    they are in a JavaScript number all the way up to 2^53. *)
Record t := mk {
  users : list (string * User.t);
  projects : list (Z * Project.t);
  media : list (Z * Media.t);
  contacts : list (Z * ContactSubmission.t);
  nextProjectId : Z;
  nextMediaId : Z;
  nextContactId : Z }.

(** [new MemStorage()]. *)
Definition init : t := mk [] [] [] [] 1 1 1.

Definition set_users (f : list (string * User.t) -> list (string * User.t)) (s : t) : t :=
  mk (f (users s)) (projects s) (media s) (contacts s)
     (nextProjectId s) (nextMediaId s) (nextContactId s).

Definition set_projects (f : list (Z * Project.t) -> list (Z * Project.t)) (s : t) : t :=
  mk (users s) (f (projects s)) (media s) (contacts s)
     (nextProjectId s) (nextMediaId s) (nextContactId s).

Definition set_media (f : list (Z * Media.t) -> list (Z * Media.t)) (s : t) : t :=
  mk (users s) (projects s) (f (media s)) (contacts s)
     (nextProjectId s) (nextMediaId s) (nextContactId s).

Definition set_contacts
  (f : list (Z * ContactSubmission.t) -> list (Z * ContactSubmission.t)) (s : t) : t :=
  mk (users s) (projects s) (media s) (f (contacts s))
     (nextProjectId s) (nextMediaId s) (nextContactId s).

(** [this.nextProjectId++] and its two siblings: the old value is the
    result, the field goes up by one. *)
Definition postIncrementProjectId : Async t Z :=
  fun w =>
    let s := store w in
    (Fulfilled (nextProjectId s),
     mkWorld (ticks w)
       (mk (users s) (projects s) (media s) (contacts s)
           (nextProjectId s + 1) (nextMediaId s) (nextContactId s))).

Definition postIncrementMediaId : Async t Z :=
  fun w =>
    let s := store w in
    (Fulfilled (nextMediaId s),
     mkWorld (ticks w)
       (mk (users s) (projects s) (media s) (contacts s)
           (nextProjectId s) (nextMediaId s + 1) (nextContactId s))).

Definition postIncrementContactId : Async t Z :=
  fun w =>
    let s := store w in
    (Fulfilled (nextContactId s),
     mkWorld (ticks w)
       (mk (users s) (projects s) (media s) (contacts s)
           (nextProjectId s) (nextMediaId s) (nextContactId s + 1))).

Section Methods.
Variable clock : nat -> Date.

(** *** User operations *)

Definition getUser (id : string) : Async t (option User.t) :=
  gets (fun s => JsMap.get String.eqb id (users s)).

Definition upsertUser (userData : UpsertUser.t) : Async t User.t :=
  match orNull (UpsertUser.id userData) with
  | None => throw (mkError "User ID is required")
  | Some id =>
      existingUser <- gets (fun s => JsMap.get String.eqb id (users s)) ;;
      createdAt <-
        match existingUser with
        | Some {| User.createdAt := Some d |} => ret d
        | _ => newDate clock
        end ;;
      updatedAt <- newDate clock ;;
      let user :=
        {| User.id := id;
           User.email := orNull (UpsertUser.email userData);
           User.firstName := orNull (UpsertUser.firstName userData);
           User.lastName := orNull (UpsertUser.lastName userData);
           User.profileImageUrl := orNull (UpsertUser.profileImageUrl userData);
           User.createdAt := Some createdAt;
           User.updatedAt := Some updatedAt |} in
      modify (set_users (JsMap.set String.eqb id user)) ;;
      ret user
  end.

(** *** Project operations *)

Definition byCreatedAtDesc (a b : Project.t) : Z :=
  getTime (Project.createdAt b) - getTime (Project.createdAt a).

Definition getProjects (status : option string) : Async t (list Project.t) :=
  allProjects <- gets (fun s => JsMap.values (projects s)) ;;
  let filtered :=
    match orNull status with
    | Some st => filter (fun p => (Project.status p =? st)%string) allProjects
    | None => allProjects
    end in
  ret (Array_sort byCreatedAtDesc filtered).

Definition getProject (id : Z) : Async t (option Project.t) :=
  gets (fun s => JsMap.get Z.eqb id (projects s)).

Definition getProjectBySlug (slug : string) : Async t (option Project.t) :=
  gets (fun s =>
    JsMap.find (fun p => (Project.slug p =? slug)%string) (JsMap.values (projects s))).

(** [projectData.tags || null] has nothing to replace: an array is
    truthy even when it is empty. *)
Definition createProject (projectData : InsertProject.t) : Async t Project.t :=
  id <- postIncrementProjectId ;;
  createdAt <- newDate clock ;;
  updatedAt <- newDate clock ;;
  let project :=
    {| Project.id := id;
       Project.title := InsertProject.title projectData;
       Project.slug := InsertProject.slug projectData;
       Project.description := InsertProject.description projectData;
       Project.content := InsertProject.content projectData;
       Project.featuredImage := orNull (InsertProject.featuredImage projectData);
       Project.category := InsertProject.category projectData;
       Project.tags := InsertProject.tags projectData;
       Project.status := orElse (InsertProject.status projectData) "draft";
       Project.authorId := orNull (InsertProject.authorId projectData);
       Project.createdAt := createdAt;
       Project.updatedAt := updatedAt |} in
  modify (set_projects (JsMap.set Z.eqb id project)) ;;
  ret project.

Definition updateProject (id : Z) (projectData : PartialInsertProject.t) : Async t Project.t :=
  existing <- gets (fun s => JsMap.get Z.eqb id (projects s)) ;;
  match existing with
  | None => throw (mkError ("Project with id " ++ Number_toString id ++ " not found")%string)
  | Some existing =>
      updatedAt <- newDate clock ;;
      let updated := mergeProject existing projectData updatedAt in
      modify (set_projects (JsMap.set Z.eqb id updated)) ;;
      ret updated
  end.

Definition deleteProject (id : Z) : Async t unit :=
  modify (set_projects (JsMap.delete Z.eqb id)).

(** *** Media operations *)

Definition mediaByCreatedAtDesc (a b : Media.t) : Z :=
  getTime (Media.createdAt b) - getTime (Media.createdAt a).

Definition getMedia : Async t (list Media.t) :=
  allMedia <- gets (fun s => JsMap.values (media s)) ;;
  ret (Array_sort mediaByCreatedAtDesc allMedia).

Definition getMediaById (id : Z) : Async t (option Media.t) :=
  gets (fun s => JsMap.get Z.eqb id (media s)).

Definition createMedia (mediaData : InsertMedia.t) : Async t Media.t :=
  id <- postIncrementMediaId ;;
  createdAt <- newDate clock ;;
  let m :=
    {| Media.id := id;
       Media.filename := InsertMedia.filename mediaData;
       Media.originalName := InsertMedia.originalName mediaData;
       Media.mimeType := InsertMedia.mimeType mediaData;
       Media.size := InsertMedia.size mediaData;
       Media.url := InsertMedia.url mediaData;
       Media.altText := orNull (InsertMedia.altText mediaData);
       Media.uploadedBy := orNull (InsertMedia.uploadedBy mediaData);
       Media.createdAt := createdAt |} in
  modify (set_media (JsMap.set Z.eqb id m)) ;;
  ret m.

Definition deleteMedia (id : Z) : Async t unit :=
  modify (set_media (JsMap.delete Z.eqb id)).

(** *** Contact operations *)

Definition contactByCreatedAtDesc (a b : ContactSubmission.t) : Z :=
  getTime (ContactSubmission.createdAt b) - getTime (ContactSubmission.createdAt a).

Definition getContacts : Async t (list ContactSubmission.t) :=
  allContacts <- gets (fun s => JsMap.values (contacts s)) ;;
  ret (Array_sort contactByCreatedAtDesc allContacts).

(** [{ id, ...contactData, status: "new", createdAt: new Date() }]: the
    spread comes after [id], so an [id] that the payload carries replaces
    the counter's value in the record; [status] and [createdAt] come after
    the spread and replace whatever the spread copied.  The map key is the
    counter's value in every case. *)
Definition createContact (contactData : InsertContact.t) : Async t ContactSubmission.t :=
  id <- postIncrementContactId ;;
  createdAt <- newDate clock ;;
  let contact :=
    {| ContactSubmission.id := spread id (InsertContact.id contactData);
       ContactSubmission.name := InsertContact.name contactData;
       ContactSubmission.email := InsertContact.email contactData;
       ContactSubmission.subject := InsertContact.subject contactData;
       ContactSubmission.message := InsertContact.message contactData;
       ContactSubmission.status := overwrite (InsertContact.status contactData) "new";
       ContactSubmission.createdAt :=
         overwrite (InsertContact.createdAt contactData) createdAt |} in
  modify (set_contacts (JsMap.set Z.eqb id contact)) ;;
  ret contact.

(** [{ ...existing, status }]. *)
Definition withStatus (existing : ContactSubmission.t) (status : string) : ContactSubmission.t :=
  {| ContactSubmission.id := ContactSubmission.id existing;
     ContactSubmission.name := ContactSubmission.name existing;
     ContactSubmission.email := ContactSubmission.email existing;
     ContactSubmission.subject := ContactSubmission.subject existing;
     ContactSubmission.message := ContactSubmission.message existing;
     ContactSubmission.status := status;
     ContactSubmission.createdAt := ContactSubmission.createdAt existing |}.

Definition updateContactStatus (id : Z) (status : string) : Async t unit :=
  existing <- gets (fun s => JsMap.get Z.eqb id (contacts s)) ;;
  match existing with
  | Some existing => modify (set_contacts (JsMap.set Z.eqb id (withStatus existing status)))
  | None => ret tt
  end.

End Methods.
End MemStorage.

(** ** [DatabaseStorage]: the drizzle-orm store

    Only [updateProject] is modelled, over the rows of the [projects]
    table.  Whether PostgreSQL carries a statement out or raises an error
    of its own (a value too long for its column, a slug that another row
    has, an author that is no user, a lost connection) is decided outside
    this repository and is a parameter here. *)

Module DatabaseStorage.

Record t := mk { projects : list Project.t }.

Section Statements.
Variable clock : nat -> Date.

(** The error the database raises instead of carrying out
    [UPDATE projects SET ... WHERE id = ...] on the given rows, if any. *)
Variable refusal : list Project.t -> Z -> PartialInsertProject.t -> Date -> option Error.

(** [db.update(projects).set({ ...project, updatedAt }).where(eq(projects.id, id)).returning()]:
    the rows with that id are rewritten and returned; an error leaves the
    table as it was. *)
Definition update_returning (id : Z) (project : PartialInsertProject.t) (updatedAt : Date)
  : Async t (list Project.t) :=
  fun w =>
    let rows := projects (store w) in
    match refusal rows id project updatedAt with
    | Some e => (Rejected e, w)
    | None =>
        (Fulfilled
           (map (fun r => mergeProject r project updatedAt)
              (filter (fun r => Project.id r =? id) rows)),
         mkWorld (ticks w)
           (mk (map (fun r =>
                       if Project.id r =? id
                       then mergeProject r project updatedAt else r) rows)))
    end.

(** [const [updatedProject] = await ...returning(); return updatedProject]:
    destructuring an empty array leaves [undefined], here [None]. *)
Definition updateProject (id : Z) (project : PartialInsertProject.t)
  : Async t (option Project.t) :=
  updatedAt <- newDate clock ;;
  returned <- update_returning id project updatedAt ;;
  ret (hd_error returned).

End Statements.
End DatabaseStorage.

(** A database that carries out every statement. *)
Definition accepting : list Project.t -> Z -> PartialInsertProject.t -> Date -> option Error :=
  fun _ _ _ _ => None.

(** ** Runs of a process

    A process makes calls one after the other on the store it constructed
    at start-up (the three [createProject] of [initializeSampleData] come
    first); a rejected call is caught by its caller and the next call
    goes on from the state the rejected one left.  The trace keeps the id
    that each successful create handed out.  The contact payloads of a run
    are the ones the type [InsertContact] allows as far as [id] goes: they
    carry no [id] of their own. *)

Inductive Call :=
| UpsertUser (userData : UpsertUser.t)
| CreateProject (projectData : InsertProject.t)
| UpdateProject (id : Z) (projectData : PartialInsertProject.t)
| DeleteProject (id : Z)
| CreateMedia (mediaData : InsertMedia.t)
| DeleteMedia (id : Z)
| CreateContact (contactData : InsertContact.t)
    (typed : InsertContact.id contactData = None)
| UpdateContactStatus (id : Z) (status : string).

Inductive Assigned :=
| ProjectId (id : Z)
| MediaId (id : Z)
| ContactId (id : Z).

Definition assigned {A : Type} (tag : A -> Assigned)
  (r : Settled A * World MemStorage.t) : list Assigned * World MemStorage.t :=
  match r with
  | (Fulfilled a, w) => ([tag a], w)
  | (Rejected _, w) => ([], w)
  end.

Definition silent {A : Type}
  (r : Settled A * World MemStorage.t) : list Assigned * World MemStorage.t :=
  ([], snd r).

Definition call (clock : nat -> Date) (c : Call) (w : World MemStorage.t)
  : list Assigned * World MemStorage.t :=
  match c with
  | UpsertUser d => silent (MemStorage.upsertUser clock d w)
  | CreateProject d =>
      assigned (fun p => ProjectId (Project.id p)) (MemStorage.createProject clock d w)
  | UpdateProject id d => silent (MemStorage.updateProject clock id d w)
  | DeleteProject id => silent (MemStorage.deleteProject id w)
  | CreateMedia d =>
      assigned (fun m => MediaId (Media.id m)) (MemStorage.createMedia clock d w)
  | DeleteMedia id => silent (MemStorage.deleteMedia id w)
  | CreateContact d _ =>
      assigned (fun c => ContactId (ContactSubmission.id c))
        (MemStorage.createContact clock d w)
  | UpdateContactStatus id st => silent (MemStorage.updateContactStatus id st w)
  end.

Fixpoint run (clock : nat -> Date) (calls : list Call) (w : World MemStorage.t)
  : list Assigned * World MemStorage.t :=
  match calls with
  | [] => ([], w)
  | c :: calls' =>
      let (here, w1) := call clock c w in
      let (later, w2) := run clock calls' w1 in
      (here ++ later, w2)
  end.

Definition projectIds (trace : list Assigned) : list Z :=
  flat_map (fun a => match a with ProjectId i => [i] | _ => [] end) trace.

Definition mediaIds (trace : list Assigned) : list Z :=
  flat_map (fun a => match a with MediaId i => [i] | _ => [] end) trace.

Definition contactIds (trace : list Assigned) : list Z :=
  flat_map (fun a => match a with ContactId i => [i] | _ => [] end) trace.

(** Most recent first, by creation time. *)
Definition newestFirst : Project.t -> Project.t -> Prop :=
  descending (fun p => getTime (Project.createdAt p)).

(** ** Sample inputs

    A clock that has moved on by a millisecond at every reading, one that
    stands still, and payloads in the shape the routes pass on. *)

Definition tickingClock (n : nat) : Date := mkDate (1700000000000 + Z.of_nat n).

Definition frozenClock (n : nat) : Date := mkDate 1700000000000.

Definition firstProject : InsertProject.t :=
  {| InsertProject.title := "My First Project";
     InsertProject.slug := "my-first-project";
     InsertProject.description := "d";
     InsertProject.content := "c";
     InsertProject.featuredImage := None;
     InsertProject.category := "Web";
     InsertProject.tags := None;
     InsertProject.status := None;
     InsertProject.authorId := None |}.

Definition publishOnly : PartialInsertProject.t :=
  {| PartialInsertProject.title := None;
     PartialInsertProject.slug := None;
     PartialInsertProject.description := None;
     PartialInsertProject.content := None;
     PartialInsertProject.featuredImage := None;
     PartialInsertProject.category := None;
     PartialInsertProject.tags := None;
     PartialInsertProject.status := Some "published";
     PartialInsertProject.authorId := None |}.

Definition fullUser : UpsertUser.t :=
  {| UpsertUser.id := Some "mock-user-123";
     UpsertUser.email := Some "dev@example.com";
     UpsertUser.firstName := Some "Developer";
     UpsertUser.lastName := Some "User";
     UpsertUser.profileImageUrl := None |}.

Definition emailOnly : UpsertUser.t :=
  {| UpsertUser.id := Some "mock-user-123";
     UpsertUser.email := Some "new@example.com";
     UpsertUser.firstName := None;
     UpsertUser.lastName := None;
     UpsertUser.profileImageUrl := None |}.

Definition repliedContact : InsertContact.t :=
  {| InsertContact.name := "Ada";
     InsertContact.email := "ada@example.com";
     InsertContact.subject := "Hello";
     InsertContact.message := "Hi there";
     InsertContact.id := None;
     InsertContact.status := Some "replied";
     InsertContact.createdAt := None |}.


Definition start : World MemStorage.t := mkWorld 0 MemStorage.init.

Definition createDeleteCreate : list Call :=
  [CreateProject firstProject; DeleteProject 1; CreateProject firstProject].

Definition afterFirstProject : World MemStorage.t :=
  snd (MemStorage.createProject tickingClock firstProject start).

Definition firstRow : Project.t :=
  {| Project.id := 1;
     Project.title := "My First Project";
     Project.slug := "my-first-project";
     Project.description := "d";
     Project.content := "c";
     Project.featuredImage := None;
     Project.category := "Web";
     Project.tags := None;
     Project.status := "draft";
     Project.createdAt := mkDate 1700000000000;
     Project.updatedAt := mkDate 1700000000000;
     Project.authorId := None |}.

(** ** Invariant of the in-process store

    Every map holds each key once, every record sits under its own id, and
    every id in use lies below the counter that hands out the next one. *)

Definition tableOk {V : Type} (idOf : V -> Z) (m : list (Z * V)) (next : Z) : Prop :=
  NoDup (JsMap.keys m) /\
  Forall (fun e => idOf (snd e) = fst e /\ fst e < next) m.

Definition wellFormed (s : MemStorage.t) : Prop :=
  tableOk Project.id (MemStorage.projects s) (MemStorage.nextProjectId s) /\
  tableOk Media.id (MemStorage.media s) (MemStorage.nextMediaId s) /\
  tableOk ContactSubmission.id (MemStorage.contacts s) (MemStorage.nextContactId s).

(** Ids handed out while a counter went from [lo] to [hi]: each one
    greater than the one before. *)
Definition handedOut (ids : list Z) (lo hi : Z) : Prop :=
  lo <= hi /\ StronglySorted Z.lt ids /\ Forall (fun i => lo <= i < hi) ids.

(** Unfolding a call down to the state it returns. *)
Create HintDb storage.
#[export] Hint Unfold
  bind ret throw newDate gets modify
  MemStorage.postIncrementProjectId MemStorage.postIncrementMediaId
  MemStorage.postIncrementContactId
  MemStorage.getUser MemStorage.upsertUser
  MemStorage.getProjects MemStorage.getProject MemStorage.getProjectBySlug
  MemStorage.createProject MemStorage.updateProject MemStorage.deleteProject
  MemStorage.getMedia MemStorage.getMediaById MemStorage.createMedia MemStorage.deleteMedia
  MemStorage.getContacts MemStorage.createContact MemStorage.updateContactStatus
  MemStorage.set_users MemStorage.set_projects MemStorage.set_media MemStorage.set_contacts
  DatabaseStorage.updateProject DatabaseStorage.update_returning
  : storage.

Ltac settle := autounfold with storage; simpl.

(** Closes the goals of a call that leaves the three id maps and their
    counters as they are. *)
Ltac untouched H :=
  unfold wellFormed in *; simpl;
  repeat match goal with |- _ /\ _ => split end;
  try apply H;
  try (unfold handedOut; repeat split; [lia | constructor | constructor]).

(** ** Strings of [server/routes.ts]

    A title is a sequence of UTF-16 code units; the ones below 256
    (Latin-1) are the characters of [string].  On them [toLowerCase],
    the class [\s] and the class [[^a-z0-9-]] are as follows. *)

Definition code (c : Ascii.ascii) : N := Ascii.N_of_ascii c.

(** [\s] below 256: tab, line feed, vertical tab, form feed, carriage
    return, space and no-break space. *)
Definition isSpace (c : Ascii.ascii) : bool :=
  let n := code c in
  ((9 <=? n) && (n <=? 13) || (n =? 32) || (n =? 160))%N.

(** [toLowerCase] below 256: A-Z and the accented capitals except the
    multiplication sign move up by 32. *)
Definition lowerChar (c : Ascii.ascii) : Ascii.ascii :=
  let n := code c in
  if ((65 <=? n) && (n <=? 90) || (192 <=? n) && (n <=? 222) && negb (n =? 215))%N
  then Ascii.ascii_of_N (n + 32)
  else c.

(** [[a-z0-9-]]. *)
Definition isSlugChar (c : Ascii.ascii) : bool :=
  let n := code c in
  ((97 <=? n) && (n <=? 122) || (48 <=? n) && (n <=? 57) || (n =? 45))%N.

Fixpoint toLowerCase (s : string) : string :=
  match s with
  | EmptyString => EmptyString
  | String c s' => String (lowerChar c) (toLowerCase s')
  end.

(** [.replace(/\s+/g, '-')]: every maximal run of white space becomes one
    hyphen; [inRun] says that the character before was white space. *)
Fixpoint replaceSpaceRuns (inRun : bool) (s : string) : string :=
  match s with
  | EmptyString => EmptyString
  | String c s' =>
      if isSpace c
      then if inRun then replaceSpaceRuns true s'
           else String "-"%char (replaceSpaceRuns true s')
      else String c (replaceSpaceRuns false s')
  end.

(** [.replace(/[^a-z0-9-]/g, '')]. *)
Fixpoint stripNonSlug (s : string) : string :=
  match s with
  | EmptyString => EmptyString
  | String c s' =>
      if isSlugChar c then String c (stripNonSlug s') else stripNonSlug s'
  end.

(** The slug the project routes derive:
    [title.toLowerCase().replace(/\s+/g, '-').replace(/[^a-z0-9-]/g, '')]. *)
Definition slugOf (title : string) : string :=
  stripNonSlug (replaceSpaceRuns false (toLowerCase title)).

(** A character that leaves no trace in a slug: not white space, and not
    in [[a-z0-9-]] once lowered. *)
Definition leavesNoTrace (c : Ascii.ascii) : bool :=
  negb (isSpace c) && negb (isSlugChar (lowerChar c)).

Fixpoint allChars (f : Ascii.ascii -> bool) (s : string) : bool :=
  match s with
  | EmptyString => true
  | String c s' => f c && allChars f s'
  end.

(** ** Requests and responses of [server/routes.ts]

    What the middleware and the handlers read of a request: the session
    that express-session attached, if any, with whether its [loggedOut]
    is [true], and the user with its claims.  [res.status(n).json(b)] is
    the response [(n, b)]; [res.json(b)] answers 200. *)

Record Claims := mkClaims {
  sub : option string;
  claimEmail : option string;
  first_name : option string;
  last_name : option string }.

Record Session := mkSession { loggedOut : bool }.

Record Request := mkRequest {
  session : option Session;
  user : option Claims }.

Inductive Body :=
| Message (message : string)
| ProjectList (projects : list Project.t)
| OneProject (project : Project.t)
| OneMedia (media : Media.t)
| UserOrNothing (user : option User.t).

Record Response := mkResponse { statusCode : Z; body : Body }.

(** A middleware either answers or calls [next()] with the request as it
    left it. *)
Inductive Passed :=
| Next (req : Request)
| Answered (res : Response).

Definition mockClaims : Claims :=
  {| sub := Some "mock-user-123";
     claimEmail := Some "dev@example.com";
     first_name := Some "Developer";
     last_name := Some "User" |}.

Section Routes.
(** [process.env.NODE_ENV === 'development']. *)
Variable development : bool.
Variable clock : nat -> Date.

(** [isAuthenticated] of [./replitAuth], which this file only imports. *)
Variable isAuthenticated : Request -> Passed.

Definition developmentAuthBypass (req : Request) : Passed :=
  if development
  then
    let isLoggedOut :=
      match session req with
      | Some s => loggedOut s
      | None => false
      end in
    if negb isLoggedOut
    then Next {| session := session req; user := Some mockClaims |}
    else Next req
  else Next req.

Definition adminAuth (req : Request) : Passed :=
  if development
  then
    let isLoggedOut :=
      match session req with
      | Some s => loggedOut s
      | None => true
      end in
    if isLoggedOut || match user req with Some _ => false | None => true end
    then Answered (mkResponse 401 (Message "Not authenticated"))
    else Next req
  else isAuthenticated req.

(** [app.get(path, first, second, handler)] up to the handler. *)
Definition through (first second : Request -> Passed) (req : Request) : Passed :=
  match first req with
  | Next req' => second req'
  | Answered res => Answered res
  end.

(** The handler of [GET /api/auth/user], behind [developmentAuthBypass]. *)
Definition authUserHandler (req : Request) (w : World MemStorage.t)
  : Response * World MemStorage.t :=
  match user req with
  | None => (mkResponse 401 (Message "Not authenticated"), w)
  | Some claims =>
      let attempt : Async MemStorage.t (option User.t) :=
        found <- match sub claims with
                 | Some userId => MemStorage.getUser userId
                 | None => ret None
                 end ;;
        match found with
        | None =>
            if development
            then
              created <- MemStorage.upsertUser clock
                           {| UpsertUser.id := sub claims;
                              UpsertUser.email := claimEmail claims;
                              UpsertUser.firstName := Some (orElse (first_name claims) "Developer");
                              UpsertUser.lastName := Some (orElse (last_name claims) "User");
                              UpsertUser.profileImageUrl := None |} ;;
              ret (Some created)
            else ret None
        | Some u => ret (Some u)
        end in
      match attempt w with
      | (Fulfilled u, w') => (mkResponse 200 (UserOrNothing u), w')
      | (Rejected _, w') => (mkResponse 500 (Message "Failed to fetch user"), w')
      end
  end.

Definition getAuthUser (req : Request) (w : World MemStorage.t)
  : Response * World MemStorage.t :=
  match developmentAuthBypass req with
  | Next req' => authUserHandler req' w
  | Answered res => (res, w)
  end.

(** [GET /api/projects]. *)
Definition getPublicProjects (w : World MemStorage.t) : Response * World MemStorage.t :=
  match MemStorage.getProjects (Some "published") w with
  | (Fulfilled projects, w') => (mkResponse 200 (ProjectList projects), w')
  | (Rejected _, w') => (mkResponse 500 (Message "Failed to fetch projects"), w')
  end.

(** [GET /api/projects/:slug]. *)
Definition getPublicProject (slug : string) (w : World MemStorage.t)
  : Response * World MemStorage.t :=
  match MemStorage.getProjectBySlug slug w with
  | (Fulfilled found, w') =>
      match found with
      | Some project =>
          if (Project.status project =? "published")%string
          then (mkResponse 200 (OneProject project), w')
          else (mkResponse 404 (Message "Project not found"), w')
      | None => (mkResponse 404 (Message "Project not found"), w')
      end
  | (Rejected _, w') => (mkResponse 500 (Message "Failed to fetch project"), w')
  end.

End Routes.

(** ** Uploads and the admin list of [server/routes.ts] *)

(** [/jpeg|jpg|png|gif|webp|svg|mp4|mov|avi|pdf|doc|docx/.test(s)]: the
    pattern is not anchored, so it looks for one of the words anywhere
    in [s]. *)
Definition allowedTypes : list string :=
  ["jpeg"; "jpg"; "png"; "gif"; "webp"; "svg"; "mp4"; "mov"; "avi"; "pdf"; "doc"; "docx"].

Fixpoint contains (word s : string) : bool :=
  String.prefix word s ||
  match s with
  | EmptyString => false
  | String _ s' => contains word s'
  end.

Definition allowedTypes_test (s : string) : bool :=
  existsb (fun word => contains word s) allowedTypes.

(** What multer hands over of an uploaded file. *)
Record UploadedFile := mkUploadedFile {
  filename : string;
  originalname : string;
  mimetype : string;
  size : Z }.

Section Uploads.
Variable development : bool.
Variable clock : nat -> Date.
Variable isAuthenticated : Request -> Passed.

(** [path.extname] of Node. *)
Variable extname : string -> string.

(** [fileFilter]: [true] for [cb(null, true)], [false] for the error
    "Only images, videos, and documents are allowed". *)
Definition fileFilter (file : UploadedFile) : bool :=
  let extnameOk := allowedTypes_test (toLowerCase (extname (originalname file))) in
  let mimetypeOk := allowedTypes_test (mimetype file) in
  mimetypeOk && extnameOk.

(** The handler of [POST /api/admin/media], behind the two middlewares
    and multer; [altText] is [req.body.altText]. *)
Definition postMediaHandler (file : option UploadedFile) (altText : option string)
  (req : Request) (w : World MemStorage.t) : Response * World MemStorage.t :=
  match file with
  | None => (mkResponse 400 (Message "No file uploaded"), w)
  | Some f =>
      match user req with
      | None => (mkResponse 500 (Message "Failed to upload media"), w)
      | Some claims =>
          let mediaData :=
            {| InsertMedia.filename := filename f;
               InsertMedia.originalName := originalname f;
               InsertMedia.mimeType := mimetype f;
               InsertMedia.size := Number_toString (size f);
               InsertMedia.url := ("/uploads/" ++ filename f)%string;
               InsertMedia.altText := Some (orElse altText "");
               InsertMedia.uploadedBy := sub claims |} in
          match MemStorage.createMedia clock mediaData w with
          | (Fulfilled m, w') => (mkResponse 201 (OneMedia m), w')
          | (Rejected _, w') => (mkResponse 500 (Message "Failed to upload media"), w')
          end
      end
  end.

(** [GET /api/admin/projects], behind [developmentAuthBypass] only.
    Outside development the handler hands the request to
    [isAuthenticated] with a [next] that does nothing: [None] stands for
    a request that is left without any response. *)
Definition getAdminProjects (req : Request) (w : World MemStorage.t)
  : option Response * World MemStorage.t :=
  match developmentAuthBypass development req with
  | Answered res => (Some res, w)
  | Next req' =>
      if negb development
      then match isAuthenticated req' with
           | Answered res => (Some res, w)
           | Next _ => (None, w)
           end
      else match MemStorage.getProjects None w with
           | (Fulfilled projects, w') => (Some (mkResponse 200 (ProjectList projects)), w')
           | (Rejected _, w') =>
               (Some (mkResponse 500 (Message "Failed to fetch projects")), w')
           end
  end.

End Uploads.

(** ** Invariant of the stored users

    Every user sits under its own, non-empty id, once, with both stamps
    set. *)
Definition usersOk (m : list (string * User.t)) : Prop :=
  NoDup (JsMap.keys m) /\
  Forall (fun e =>
            User.id (snd e) = fst e /\ fst e <> "" /\
            User.createdAt (snd e) <> None /\ User.updatedAt (snd e) <> None) m.

(** ** Invariant of the stamps

    Every stored project and user was stamped by readings of this
    process's clock, [createdAt] by one that was not taken after the one
    behind [updatedAt]. *)
Definition stampedAt (clock : nat -> Date) (limit : nat) (created updated : Date) : Prop :=
  exists k k', (k <= k' < limit)%nat /\ created = clock k /\ updated = clock k'.

Definition stamped (clock : nat -> Date) (w : World MemStorage.t) : Prop :=
  Forall (fun e =>
            stampedAt clock (ticks w)
              (Project.createdAt (snd e)) (Project.updatedAt (snd e)))
    (MemStorage.projects (store w)) /\
  usersOk (MemStorage.users (store w)) /\
  Forall (fun e =>
            exists c u,
              User.createdAt (snd e) = Some c /\ User.updatedAt (snd e) = Some u /\
              stampedAt clock (ticks w) c u)
    (MemStorage.users (store w)).

(** ** The project editor's tag list and toolbar

    [handleAddTag], [handleRemoveTag] and [insertText] of the project
    editor component, as functions of the component state they read and
    the state they set. *)

(** [String.prototype.trim] on the characters below 256. *)
Fixpoint trimStart (s : string) : string :=
  match s with
  | EmptyString => EmptyString
  | String c s' => if isSpace c then trimStart s' else s
  end.

Fixpoint trimEnd (s : string) : string :=
  match s with
  | EmptyString => EmptyString
  | String c s' =>
      match trimEnd s' with
      | EmptyString => if isSpace c then EmptyString else String c EmptyString
      | rest => String c rest
      end
  end.

Definition trim (s : string) : string := trimEnd (trimStart s).

(** [tags.includes(tag)]. *)
Definition includes (tag : string) (tags : list string) : bool :=
  existsb (String.eqb tag) tags.

Record TagEditor := mkTagEditor { tags : list string; newTag : string }.

Definition handleAddTag (st : TagEditor) : TagEditor :=
  if negb (trim (newTag st) =? "")%string && negb (includes (trim (newTag st)) (tags st))
  then {| tags := tags st ++ [trim (newTag st)]; newTag := "" |}
  else st.

Definition handleRemoveTag (tagToRemove : string) (st : TagEditor) : TagEditor :=
  {| tags := filter (fun tag => negb (tag =? tagToRemove)%string) (tags st);
     newTag := newTag st |}.

Section InsertText.
(** UTF-16 code units, whatever they are. *)
Context {U : Type}.

(** [s.substring(a, b)]: both ends are clamped to the length and swapped
    when they come in the wrong order. *)
Definition substring (a b : nat) (s : list U) : list U :=
  let a' := Nat.min a (List.length s) in
  let b' := Nat.min b (List.length s) in
  firstn (Nat.max a' b' - Nat.min a' b') (skipn (Nat.min a' b') s).

(** [s.substring(a)]. *)
Definition substringFrom (a : nat) (s : list U) : list U := skipn a s.

(** [insertText(before, after)] with the textarea found: the new content
    and the selection range it sets afterwards. *)
Definition insertText (before after content : list U) (selectionStart selectionEnd : nat)
  : list U * (nat * nat) :=
  let selectedText := substring selectionStart selectionEnd content in
  (substring 0 selectionStart content ++ before ++ selectedText ++ after
     ++ substringFrom selectionEnd content,
   ((selectionStart + List.length before)%nat, (selectionEnd + List.length before)%nat)).
End InsertText.

(** ** [updateProject] behind [parseInt]

    The routes hand [parseInt(req.params.id)] to the store as the id: an
    integer, or [NaN] when the text does not start with a number.  Every
    key of the projects map is a value of the counter, so
    [this.projects.get(NaN)] is [undefined] and [updateProject] throws;
    [`${NaN}`] is "NaN". *)
Inductive Parsed :=
| NaN
| Integer (n : Z).

Definition updateProjectAt (clock : nat -> Date) (id : Parsed)
  (projectData : PartialInsertProject.t) : Async MemStorage.t Project.t :=
  match id with
  | Integer n => MemStorage.updateProject clock n projectData
  | NaN => throw (mkError "Project with id NaN not found")
  end.

(** The integers from [lo] on, [count] of them. *)
Fixpoint upFrom (lo : Z) (count : nat) : list Z :=
  match count with
  | O => []
  | S count' => lo :: upFrom (lo + 1) count'
  end.

(** ** More sample inputs *)

Definition publishedTwin : InsertProject.t :=
  {| InsertProject.title := "My First Project!";
     InsertProject.slug := "my-first-project";
     InsertProject.description := "d";
     InsertProject.content := "c";
     InsertProject.featuredImage := None;
     InsertProject.category := "Web";
     InsertProject.tags := None;
     InsertProject.status := Some "published";
     InsertProject.authorId := None |}.

Definition draftThenPublished : list Call :=
  [CreateProject firstProject; CreateProject publishedTwin].

Definition freshRequest : Request :=
  {| session := Some (mkSession false); user := None |}.

#[export] Hint Unfold
  developmentAuthBypass adminAuth through authUserHandler getAuthUser
  getPublicProjects getPublicProject postMediaHandler getAdminProjects
  updateProjectAt
  : storage.

(** ** Numbers as the template literal prints them *)

(** The ids a store is likely to see print in full: zero, and every
    integer up to 5000 on either side of it. *)
Example Number_toString_small :
  forallb (fun n => (Number_toString n =? digitsOf n)%string) (upFrom 0 (Z.to_nat 5001)) = true /\
  forallb (fun n => (Number_toString (- n) =? "-" ++ digitsOf n)%string) (upFrom 1 (Z.to_nat 5000))
  = true.
Proof. split; vm_compute; reflexivity. Qed.

(** [2^53] is the last integer before the doubles thin out: [2^53 + 1] is
    not a double and reads as [2^53]; [2^60] prints sixteen digits and
    zeros; [10^21] is where the exponent form starts; [2^1024] is beyond
    the doubles. *)
Example Number_toString_large :
  Number_toString 9007199254740991 = "9007199254740991" /\
  Number_toString 9007199254740992 = "9007199254740992" /\
  Number_toString 9007199254740993 = "9007199254740992" /\
  Number_toString (2 ^ 60) = "1152921504606847000" /\
  Number_toString (10 ^ 20) = "100000000000000000000" /\
  Number_toString (10 ^ 21 - 1) = "1e+21" /\
  Number_toString (10 ^ 21) = "1e+21" /\
  Number_toString (- 10 ^ 21) = "-1e+21" /\
  Number_toString (15 * 10 ^ 20) = "1.5e+21" /\
  Number_toString 123456789012345678901234567890 = "1.2345678901234568e+29" /\
  Number_toString (2 ^ 1024) = "Infinity".
Proof. repeat split; vm_compute; reflexivity. Qed.

(** ** Facts about the map model *)

Section JsMapFacts.
Context {K V : Type}.
Variable eqb : K -> K -> bool.
Hypothesis eqb_eq : forall a b, eqb a b = true <-> a = b.

Lemma eqb_refl k : eqb k k = true.
Proof. now apply eqb_eq. Qed.

Lemma eqb_neq a b : a <> b -> eqb a b = false.
Proof.
  intro H. destruct (eqb a b) eqn:E; [|reflexivity].
  apply eqb_eq in E. contradiction.
Qed.

Lemma get_set_same k (v : V) m : JsMap.get eqb k (JsMap.set eqb k v m) = Some v.
Proof.
  induction m as [|[k' v'] m IH]; simpl.
  - now rewrite eqb_refl.
  - destruct (eqb k k') eqn:E; simpl.
    + now rewrite eqb_refl.
    + now rewrite E.
Qed.

Lemma get_set_other k k' (v : V) m :
  k' <> k -> JsMap.get eqb k' (JsMap.set eqb k v m) = JsMap.get eqb k' m.
Proof.
  intro N. induction m as [|[k0 v0] m IH]; simpl.
  - now rewrite (eqb_neq k' k N).
  - destruct (eqb k k0) eqn:E; simpl.
    + apply eqb_eq in E. subst k0. now rewrite (eqb_neq k' k N).
    + now rewrite IH.
Qed.

Lemma get_In k (v : V) m : JsMap.get eqb k m = Some v -> In (k, v) m.
Proof.
  induction m as [|[k' v'] m IH]; simpl; [discriminate|].
  destruct (eqb k k') eqn:E.
  - apply eqb_eq in E. intros [= ->]. subst. now left.
  - intro H. right. auto.
Qed.

Lemma get_None_keys k (m : list (K * V)) :
  JsMap.get eqb k m = None <-> ~ In k (JsMap.keys m).
Proof.
  induction m as [|[k' v'] m IH]; simpl.
  - tauto.
  - destruct (eqb k k') eqn:E.
    + apply eqb_eq in E. subst. split; [discriminate|]. intro H. exfalso. apply H. now left.
    + rewrite IH. split.
      * intros H [H1|H1]; [|tauto]. subst. rewrite eqb_refl in E. discriminate.
      * tauto.
Qed.

Lemma In_set e k (v : V) m :
  In e (JsMap.set eqb k v m) -> e = (k, v) \/ In e m.
Proof.
  induction m as [|[k' v'] m IH]; simpl.
  - intros [H|[]]. now left.
  - destruct (eqb k k'); simpl.
    + intros [H|H]; [now left | right; now right].
    + intros [H|H]; [right; now left|]. destruct (IH H); [now left | right; now right].
Qed.

Lemma keys_set_In k (v : V) m x :
  In x (JsMap.keys (JsMap.set eqb k v m)) -> x = k \/ In x (JsMap.keys m).
Proof.
  unfold JsMap.keys. rewrite !in_map_iff. intros [e [<- H]].
  apply In_set in H. destruct H as [->|H]; [now left|].
  right. now exists e.
Qed.

Lemma NoDup_keys_set k (v : V) m :
  NoDup (JsMap.keys m) -> NoDup (JsMap.keys (JsMap.set eqb k v m)).
Proof.
  induction m as [|[k' v'] m IH]; simpl; intro H.
  - constructor; [intros []|constructor].
  - inversion H as [|? ? Hn Hd]; subst.
    destruct (eqb k k') eqn:E; simpl.
    + apply eqb_eq in E. subst. now constructor.
    + constructor; [|now apply IH].
      intro Hin. apply keys_set_In in Hin. destruct Hin as [->|Hin]; [|contradiction].
      rewrite eqb_refl in E. discriminate.
Qed.

Lemma NoDup_keys_delete k (m : list (K * V)) :
  NoDup (JsMap.keys m) -> NoDup (JsMap.keys (JsMap.delete eqb k m)).
Proof.
  unfold JsMap.delete, JsMap.keys.
  induction m as [|[k' v'] m IH]; simpl; intro H; [constructor|].
  inversion H as [|? ? Hn Hd]; subst.
  destruct (eqb k k'); simpl; [now apply IH|].
  constructor; [|now apply IH].
  rewrite in_map_iff. intros [e [He Hin]]. apply filter_In in Hin.
  apply Hn. rewrite in_map_iff. exists e. tauto.
Qed.

Lemma delete_delete k (m : list (K * V)) :
  JsMap.delete eqb k (JsMap.delete eqb k m) = JsMap.delete eqb k m.
Proof.
  unfold JsMap.delete.
  induction m as [|e m IH]; simpl; [reflexivity|].
  destruct (negb (eqb k (fst e))) eqn:E; simpl; [rewrite E|]; now rewrite IH.
Qed.

Lemma delete_absent k (m : list (K * V)) :
  JsMap.get eqb k m = None -> JsMap.delete eqb k m = m.
Proof.
  unfold JsMap.delete.
  induction m as [|[k' v'] m IH]; simpl; [reflexivity|].
  destruct (eqb k k'); simpl; [discriminate|].
  intro H. now rewrite IH.
Qed.

Lemma get_delete_same k (m : list (K * V)) :
  JsMap.get eqb k (JsMap.delete eqb k m) = None.
Proof.
  unfold JsMap.delete.
  induction m as [|[k' v'] m IH]; simpl; [reflexivity|].
  destruct (eqb k k') eqn:E; simpl; [assumption|]. now rewrite E.
Qed.

(** [set] on a key that is present rewrites that one entry where it
    stands. *)
Lemma set_present k (v0 v : V) m :
  JsMap.get eqb k m = Some v0 ->
  exists before after,
    m = before ++ (k, v0) :: after /\
    ~ In k (JsMap.keys before) /\
    JsMap.set eqb k v m = before ++ (k, v) :: after.
Proof.
  induction m as [|[k' v'] m IH]; simpl; [discriminate|].
  destruct (eqb k k') eqn:E.
  - apply eqb_eq in E. subst k'. intros [= ->].
    exists [], m. simpl. tauto.
  - intro H. destruct (IH H) as [b [a [Hm [Hn Hs]]]].
    exists ((k', v') :: b), a. simpl. rewrite Hm at 1. rewrite Hs.
    repeat split; try reflexivity.
    intros [Hk|Hk]; [|contradiction]. subst. rewrite eqb_refl in E. discriminate.
Qed.

(** [set] on a key that is absent appends the entry. *)
Lemma set_absent k (v : V) m :
  JsMap.get eqb k m = None -> JsMap.set eqb k v m = m ++ [(k, v)].
Proof.
  induction m as [|[k' v'] m IH]; simpl; [reflexivity|].
  destruct (eqb k k'); [discriminate|]. intro H. now rewrite IH.
Qed.

End JsMapFacts.

(** ** Facts about the sort

    The comparators of the listings all have the shape
    [(a, b) => key(b) - key(a)]. *)

Section ArraySortFacts.
Context {A : Type}.
Variable key : A -> Z.
Variable compare : A -> A -> Z.
Hypothesis compare_key : forall a b, compare a b = key b - key a.

Lemma sort_insert_perm x l : Permutation (sort_insert compare x l) (x :: l).
Proof.
  induction l as [|y l IH]; simpl.
  - apply Permutation_refl.
  - destruct (compare x y <=? 0).
    + apply Permutation_refl.
    + apply perm_trans with (y :: x :: l).
      * now apply perm_skip.
      * apply perm_swap.
Qed.

Lemma Array_sort_perm l : Permutation (Array_sort compare l) l.
Proof.
  induction l as [|x l IH]; simpl.
  - apply perm_nil.
  - apply perm_trans with (x :: Array_sort compare l).
    + apply sort_insert_perm.
    + now apply perm_skip.
Qed.

Lemma sort_insert_sorted x l :
  StronglySorted (descending key) l -> StronglySorted (descending key) (sort_insert compare x l).
Proof.
  induction 1 as [|y l Hs IH Hy]; simpl.
  - constructor; constructor.
  - rewrite compare_key. destruct (key y - key x <=? 0) eqn:E.
    + apply Z.leb_le in E.
      constructor; [now constructor|].
      constructor; [unfold descending; lia|].
      eapply Forall_impl; [|exact Hy].
      unfold descending. intros z Hz. lia.
    + apply Z.leb_gt in E.
      constructor; [exact IH|].
      apply Forall_forall. intros z Hz.
      apply (Permutation_in _ (sort_insert_perm x l)) in Hz.
      destruct Hz as [<-|Hz].
      * unfold descending. lia.
      * rewrite Forall_forall in Hy. now apply Hy.
Qed.

Lemma Array_sort_sorted l : StronglySorted (descending key) (Array_sort compare l).
Proof.
  induction l as [|x l IH]; simpl.
  - constructor.
  - now apply sort_insert_sorted.
Qed.

(** Stability: records with the same key keep the order they had. *)
Lemma sort_insert_stable c x l :
  filter (fun a => key a =? c) (sort_insert compare x l)
  = filter (fun a => key a =? c) (x :: l).
Proof.
  induction l as [|y l IH]; simpl; [reflexivity|].
  rewrite compare_key. destruct (key y - key x <=? 0) eqn:E; simpl; [reflexivity|].
  apply Z.leb_gt in E. rewrite IH. simpl.
  destruct (key x =? c) eqn:Ex; destruct (key y =? c) eqn:Ey; try reflexivity.
  apply Z.eqb_eq in Ex. apply Z.eqb_eq in Ey. lia.
Qed.

Lemma Array_sort_stable c l :
  filter (fun a => key a =? c) (Array_sort compare l)
  = filter (fun a => key a =? c) l.
Proof.
  induction l as [|x l IH]; simpl; [reflexivity|].
  rewrite sort_insert_stable. simpl. now rewrite IH.
Qed.

Lemma filter_key_head (x : A) (l : list A) :
  filter (fun a => key a =? key x) (x :: l)
  = x :: filter (fun a => key a =? key x) l.
Proof. simpl. now rewrite Z.eqb_refl. Qed.

Lemma filter_key_In c (x : A) (l : list A) :
  In x (filter (fun a => key a =? c) l) <-> In x l /\ key x = c.
Proof. rewrite filter_In. now rewrite Z.eqb_eq. Qed.

(** Two descending lists that agree, key by key, on the records with
    that key and on their order are one and the same list. *)
Lemma descending_lists_agree (r1 : list A) :
  forall r2,
  StronglySorted (descending key) r1 ->
  StronglySorted (descending key) r2 ->
  (forall c, filter (fun a => key a =? c) r1 = filter (fun a => key a =? c) r2) ->
  r1 = r2.
Proof.
  induction r1 as [|x r1 IH]; intros r2 S1 S2 F.
  - destruct r2 as [|y r2]; [reflexivity|].
    specialize (F (key y)). rewrite filter_key_head in F. discriminate.
  - destruct r2 as [|y r2].
    + specialize (F (key x)). rewrite filter_key_head in F. discriminate.
    + inversion S1 as [|? ? S1' H1]; subst. inversion S2 as [|? ? S2' H2]; subst.
      rewrite Forall_forall in H1, H2.
      assert (Exy : key x = key y).
      { assert (Hx : In x (y :: r2)).
        { apply (filter_key_In (key x)). rewrite <- F. rewrite filter_key_head. now left. }
        assert (Hy : In y (x :: r1)).
        { apply (filter_key_In (key y)). rewrite F. rewrite filter_key_head. now left. }
        assert (key x <= key y).
        { destruct Hx as [<-|Hx]; [lia|]. apply (H2 _ Hx). }
        assert (key y <= key x).
        { destruct Hy as [<-|Hy]; [lia|]. apply (H1 _ Hy). }
        lia. }
      pose proof (F (key y)) as Fy.
      assert (Hl : filter (fun a => key a =? key y) (x :: r1)
                   = x :: filter (fun a => key a =? key y) r1).
      { rewrite <- Exy. apply filter_key_head. }
      rewrite Hl, (filter_key_head y) in Fy. injection Fy as Hxy Ftail. subst y.
      f_equal. apply IH; try assumption.
      intro c. specialize (F c). simpl in F.
      destruct (key x =? c) eqn:E.
      * apply Z.eqb_eq in E. subst c. exact Ftail.
      * exact F.
Qed.

(** So the result of [Array_sort] is the result of every stable sort
    under this comparator, whatever algorithm an engine runs. *)
Lemma stable_sort_unique (l r : list A) :
  StronglySorted (descending key) r ->
  (forall c, filter (fun a => key a =? c) r = filter (fun a => key a =? c) l) ->
  r = Array_sort compare l.
Proof.
  intros S F. apply descending_lists_agree; [exact S|apply Array_sort_sorted|].
  intro c. now rewrite F, Array_sort_stable.
Qed.

End ArraySortFacts.

(** ** Deleting *)

Lemma deleteProject_settles id w :
  MemStorage.deleteProject id w
  = (Fulfilled tt,
     mkWorld (ticks w)
       (MemStorage.set_projects (JsMap.delete Z.eqb id) (store w))).
Proof. reflexivity. Qed.

Lemma deleteMedia_settles id w :
  MemStorage.deleteMedia id w
  = (Fulfilled tt,
     mkWorld (ticks w)
       (MemStorage.set_media (JsMap.delete Z.eqb id) (store w))).
Proof. reflexivity. Qed.

(** Deleting an id that is not stored changes nothing at all. *)
Lemma deleteProject_absent id w :
  JsMap.get Z.eqb id (MemStorage.projects (store w)) = None ->
  MemStorage.deleteProject id w = (Fulfilled tt, w).
Proof.
  intro H. rewrite deleteProject_settles.
  destruct w as [n [us ps ms cs np nm nc]]; simpl in *.
  unfold MemStorage.set_projects; simpl.
  now rewrite (delete_absent Z.eqb).
Qed.

Lemma deleteMedia_absent id w :
  JsMap.get Z.eqb id (MemStorage.media (store w)) = None ->
  MemStorage.deleteMedia id w = (Fulfilled tt, w).
Proof.
  intro H. rewrite deleteMedia_settles.
  destruct w as [n [us ps ms cs np nm nc]]; simpl in *.
  unfold MemStorage.set_media; simpl.
  now rewrite (delete_absent Z.eqb).
Qed.

(** C5. [deleteProject] and [deleteMedia] are fulfilled for every id and
    every state, whether the id is stored or not; a second call with the
    same id is fulfilled as well and hands back the very state the first
    call left. *)
Theorem delete_never_rejects_and_repeats_as_noop
  (projectId mediaId : Z) (w : World MemStorage.t) :
  (exists w1,
     MemStorage.deleteProject projectId w = (Fulfilled tt, w1) /\
     MemStorage.deleteProject projectId w1 = (Fulfilled tt, w1) /\
     JsMap.get Z.eqb projectId (MemStorage.projects (store w1)) = None) /\
  (exists w1,
     MemStorage.deleteMedia mediaId w = (Fulfilled tt, w1) /\
     MemStorage.deleteMedia mediaId w1 = (Fulfilled tt, w1) /\
     JsMap.get Z.eqb mediaId (MemStorage.media (store w1)) = None).
Proof.
  split; eexists; (split; [reflexivity|]).
  - split.
    + apply deleteProject_absent. simpl. apply get_delete_same.
    + simpl. apply get_delete_same.
  - split.
    + apply deleteMedia_absent. simpl. apply get_delete_same.
    + simpl. apply get_delete_same.
Qed.

(** ** Listing projects *)

Lemma byCreatedAtDesc_key a b :
  MemStorage.byCreatedAtDesc a b
  = getTime (Project.createdAt b) - getTime (Project.createdAt a).
Proof. reflexivity. Qed.

(** C6. [getProjects("published")] is fulfilled, leaves the state alone
    and returns the stored projects whose status is "published", each as
    often as it is stored and no other one, most recently created first;
    without an argument it returns every stored project in that order. *)
Theorem getProjects_filters_and_orders (w : World MemStorage.t) :
  let stored := JsMap.values (MemStorage.projects (store w)) in
  (exists published,
     MemStorage.getProjects (Some "published") w = (Fulfilled published, w) /\
     Permutation published
       (filter (fun p => (Project.status p =? "published")%string) stored) /\
     (forall p, In p published <-> In p stored /\ Project.status p = "published") /\
     StronglySorted newestFirst published) /\
  (exists everything,
     MemStorage.getProjects None w = (Fulfilled everything, w) /\
     Permutation everything stored /\
     StronglySorted newestFirst everything).
Proof.
  intro stored. split.
  - eexists. split; [reflexivity|]. simpl.
    pose proof (Array_sort_perm MemStorage.byCreatedAtDesc
                  (filter (fun p => (Project.status p =? "published")%string) stored)) as HP.
    split; [exact HP|]. split.
    + intro p. split.
      * intro H. apply (Permutation_in _ HP) in H. apply filter_In in H.
        destruct H as [H1 H2]. apply String.eqb_eq in H2. now split.
      * intros [H1 H2]. apply (Permutation_in _ (Permutation_sym HP)).
        apply filter_In. split; [exact H1|]. now apply String.eqb_eq.
    + apply Array_sort_sorted. exact byCreatedAtDesc_key.
  - eexists. split; [reflexivity|]. simpl. split.
    + apply Array_sort_perm.
    + apply Array_sort_sorted. exact byCreatedAtDesc_key.
Qed.

(** Projects created at the same instant come back in the order in which
    the map holds them. *)
Lemma getProjects_keeps_insertion_order_on_ties (w : World MemStorage.t) (instant : Z) :
  exists everything,
    MemStorage.getProjects None w = (Fulfilled everything, w) /\
    filter (fun p => getTime (Project.createdAt p) =? instant) everything
    = filter (fun p => getTime (Project.createdAt p) =? instant)
        (JsMap.values (MemStorage.projects (store w))).
Proof.
  eexists. split; [reflexivity|]. simpl.
  apply (Array_sort_stable (fun p => getTime (Project.createdAt p))).
  exact byCreatedAtDesc_key.
Qed.

(** ** Creating *)



(** A payload that asks for "replied" and carries no [id] is stored as
    "new" under the id the counter gives. *)
Example createContact_replied_becomes_new :
  exists contact w',
    MemStorage.createContact tickingClock repliedContact start = (Fulfilled contact, w') /\
    InsertContact.status repliedContact = Some "replied" /\
    ContactSubmission.status contact = "new" /\
    ContactSubmission.id contact = 1.
Proof. settle. eexists. eexists. repeat split. Qed.

(** What [createProject] does, field by field. *)
Lemma createProject_settles
  (clock : nat -> Date) (projectData : InsertProject.t) (w : World MemStorage.t) :
  exists project w',
    MemStorage.createProject clock projectData w = (Fulfilled project, w') /\
    Project.id project = MemStorage.nextProjectId (store w) /\
    MemStorage.nextProjectId (store w') = Project.id project + 1 /\
    Project.status project = orElse (InsertProject.status projectData) "draft" /\
    Project.tags project = InsertProject.tags projectData /\
    Project.authorId project = orNull (InsertProject.authorId projectData) /\
    Project.featuredImage project = orNull (InsertProject.featuredImage projectData) /\
    Project.slug project = InsertProject.slug projectData /\
    Project.createdAt project = clock (ticks w) /\
    Project.updatedAt project = clock (Datatypes.S (ticks w)) /\
    ticks w' = Datatypes.S (Datatypes.S (ticks w)) /\
    MemStorage.projects (store w')
    = JsMap.set Z.eqb (Project.id project) project (MemStorage.projects (store w)) /\
    MemStorage.media (store w') = MemStorage.media (store w) /\
    MemStorage.contacts (store w') = MemStorage.contacts (store w) /\
    MemStorage.nextMediaId (store w') = MemStorage.nextMediaId (store w) /\
    MemStorage.nextContactId (store w') = MemStorage.nextContactId (store w).
Proof.
  settle. eexists. eexists. split; [reflexivity|]. simpl. repeat split.
Qed.

(** The id and the defaults of [createProject], and where its stamps come
    from.  [createProject] is fulfilled for every payload; the project
    carries the value of the project counter as its id and the counter
    goes up by one; a payload without status gives "draft"; a payload
    without tags, author or featured image gives null for each;
    [createdAt] is the clock reading taken first and [updatedAt] the one
    taken right after it, so the two stamps are identical exactly when
    the clock shows the same time at both readings. *)
Lemma createProject_defaults_and_stamps
  (clock : nat -> Date) (projectData : InsertProject.t) (w : World MemStorage.t) :
  exists project w',
    MemStorage.createProject clock projectData w = (Fulfilled project, w') /\
    Project.id project = MemStorage.nextProjectId (store w) /\
    MemStorage.nextProjectId (store w') = Project.id project + 1 /\
    match InsertProject.status projectData with
    | None => Project.status project = "draft"
    | Some _ => True
    end /\
    match InsertProject.tags projectData with
    | None => Project.tags project = None
    | Some _ => True
    end /\
    match InsertProject.authorId projectData with
    | None => Project.authorId project = None
    | Some _ => True
    end /\
    match InsertProject.featuredImage projectData with
    | None => Project.featuredImage project = None
    | Some _ => True
    end /\
    Project.createdAt project = clock (ticks w) /\
    Project.updatedAt project = clock (Datatypes.S (ticks w)) /\
    (Project.createdAt project = Project.updatedAt project
     <-> clock (ticks w) = clock (Datatypes.S (ticks w))) /\
    JsMap.get Z.eqb (Project.id project) (MemStorage.projects (store w')) = Some project.
Proof.
  settle. eexists. eexists. split; [reflexivity|]. simpl.
  do 2 (split; [reflexivity|]).
  split; [now destruct (InsertProject.status projectData)|].
  split; [now destruct (InsertProject.tags projectData)|].
  split; [now destruct (InsertProject.authorId projectData)|].
  split; [now destruct (InsertProject.featuredImage projectData)|].
  do 2 (split; [reflexivity|]).
  split; [tauto|].
  apply get_set_same. exact Z.eqb_eq.
Qed.

(** C7, where the code departs from it.  [createProject] evaluates
    [new Date()] twice, once for [createdAt] and once for [updatedAt].
    Whenever the clock shows another time at the second reading, the
    project that is returned and stored carries two different stamps,
    whatever the payload and the state; its id is the value of the project
    counter all the same. *)
Theorem createProject_stamps_differ_when_the_clock_moves
  (clock : nat -> Date) (projectData : InsertProject.t) (w : World MemStorage.t) :
  clock (ticks w) <> clock (Datatypes.S (ticks w)) ->
  exists project w',
    MemStorage.createProject clock projectData w = (Fulfilled project, w') /\
    Project.id project = MemStorage.nextProjectId (store w) /\
    Project.createdAt project = clock (ticks w) /\
    Project.updatedAt project = clock (Datatypes.S (ticks w)) /\
    Project.createdAt project <> Project.updatedAt project /\
    JsMap.get Z.eqb (Project.id project) (MemStorage.projects (store w')) = Some project.
Proof.
  intro moved. settle. eexists. eexists. split; [reflexivity|]. simpl.
  do 3 (split; [reflexivity|]).
  split; [exact moved|].
  apply get_set_same. exact Z.eqb_eq.
Qed.

(** On a new store, under a clock that has moved on by a millisecond at
    the second reading: [createdAt] is 1700000000000 and [updatedAt] is
    1700000000001. *)
Lemma createProject_stamps_differ_when_the_clock_moves_witness :
  tickingClock (ticks start) <> tickingClock (Datatypes.S (ticks start)) /\
  exists project w',
    MemStorage.createProject tickingClock firstProject start = (Fulfilled project, w') /\
    Project.id project = 1 /\
    Project.createdAt project = mkDate 1700000000000 /\
    Project.updatedAt project = mkDate 1700000000001 /\
    Project.createdAt project <> Project.updatedAt project.
Proof.
  assert (moved : tickingClock (ticks start) <> tickingClock (Datatypes.S (ticks start)))
    by (vm_compute; discriminate).
  split; [exact moved|].
  destruct (createProject_stamps_differ_when_the_clock_moves
              tickingClock firstProject start moved)
    as (project & w' & E & Hid & Hc & Hu & Hne & _).
  exists project, w'.
  split; [exact E|].
  split; [exact Hid|].
  split; [exact Hc|].
  split; [exact Hu|].
  exact Hne.
Defined.

(** Under a clock that never runs backwards [createdAt] is not later than
    [updatedAt]. *)
Lemma createProject_stamps_ordered
  (clock : nat -> Date) (projectData : InsertProject.t) (w : World MemStorage.t) :
  (forall n, getTime (clock n) <= getTime (clock (Datatypes.S n))) ->
  exists project w',
    MemStorage.createProject clock projectData w = (Fulfilled project, w') /\
    getTime (Project.createdAt project) <= getTime (Project.updatedAt project).
Proof.
  intro mono. settle. eexists. eexists. split; [reflexivity|]. simpl. apply mono.
Qed.

(** The scenario of the specification, step 1. *)
Example createProject_first :
  exists project w',
    MemStorage.createProject frozenClock firstProject start = (Fulfilled project, w') /\
    Project.id project = 1 /\
    Project.slug project = "my-first-project" /\
    Project.status project = "draft" /\
    Project.createdAt project = Project.updatedAt project.
Proof. settle. eexists. eexists. repeat split. Qed.

(** ** Updating a contact's status *)

(** C9. When no contact is stored under the id, [updateContactStatus] is
    fulfilled and the state is what it was.  When a contact is stored
    under it, the call is fulfilled, reads no clock, and rewrites that one
    entry where it stands: the entries before and after it, the other
    maps and the counters are what they were, and the entry's record
    differs from the old one in [status] alone. *)
Theorem updateContactStatus_touches_status_only
  (id : Z) (status : string) (w : World MemStorage.t) :
  match JsMap.get Z.eqb id (MemStorage.contacts (store w)) with
  | None => MemStorage.updateContactStatus id status w = (Fulfilled tt, w)
  | Some existing =>
      exists before after updated,
        MemStorage.contacts (store w) = before ++ (id, existing) :: after /\
        ~ In id (JsMap.keys before) /\
        MemStorage.updateContactStatus id status w
        = (Fulfilled tt,
           mkWorld (ticks w)
             (MemStorage.set_contacts
                (fun _ => before ++ (id, updated) :: after) (store w))) /\
        ContactSubmission.status updated = status /\
        ContactSubmission.id updated = ContactSubmission.id existing /\
        ContactSubmission.name updated = ContactSubmission.name existing /\
        ContactSubmission.email updated = ContactSubmission.email existing /\
        ContactSubmission.subject updated = ContactSubmission.subject existing /\
        ContactSubmission.message updated = ContactSubmission.message existing /\
        ContactSubmission.createdAt updated = ContactSubmission.createdAt existing
  end.
Proof.
  destruct (JsMap.get Z.eqb id (MemStorage.contacts (store w))) as [existing|] eqn:E.
  - destruct (set_present Z.eqb Z.eqb_eq id existing
                (MemStorage.withStatus existing status) _ E) as [b [a [Hm [Hn Hs]]]].
    exists b, a, (MemStorage.withStatus existing status).
    split; [exact Hm|]. split; [exact Hn|]. split.
    + settle. rewrite E. simpl. now rewrite Hs.
    + repeat split.
  - settle. rewrite E. simpl. now destruct w.
Qed.

(** Every other contact is found unchanged after the call. *)
Lemma updateContactStatus_keeps_the_others
  (id other : Z) (status : string) (w : World MemStorage.t) :
  other <> id ->
  JsMap.get Z.eqb other
    (MemStorage.contacts (store (snd (MemStorage.updateContactStatus id status w))))
  = JsMap.get Z.eqb other (MemStorage.contacts (store w)).
Proof.
  intro N. settle.
  destruct (JsMap.get Z.eqb id (MemStorage.contacts (store w))); simpl.
  - now apply get_set_other; [exact Z.eqb_eq|].
  - reflexivity.
Qed.

(** ** Updating a project *)

(** [updateProject] on an id that is stored. *)
Lemma updateProject_present
  (clock : nat -> Date) (id : Z) (projectData : PartialInsertProject.t)
  (w : World MemStorage.t) (existing : Project.t) :
  JsMap.get Z.eqb id (MemStorage.projects (store w)) = Some existing ->
  MemStorage.updateProject clock id projectData w
  = (Fulfilled (mergeProject existing projectData (clock (ticks w))),
     mkWorld (Datatypes.S (ticks w))
       (MemStorage.set_projects
          (JsMap.set Z.eqb id (mergeProject existing projectData (clock (ticks w))))
          (store w))).
Proof. intro E. settle. rewrite E. reflexivity. Qed.

(** [updateProject] on an id that is not stored: the promise is rejected
    with the "not found" error and nothing has changed. *)
Lemma updateProject_absent
  (clock : nat -> Date) (id : Z) (projectData : PartialInsertProject.t)
  (w : World MemStorage.t) :
  JsMap.get Z.eqb id (MemStorage.projects (store w)) = None ->
  MemStorage.updateProject clock id projectData w
  = (Rejected (mkError ("Project with id " ++ Number_toString id ++ " not found")%string), w).
Proof. intro E. settle. rewrite E. reflexivity. Qed.

(** Merge semantics of [MemStorage.updateProject]: a supplied field takes
    the supplied value, a field left out keeps the stored one, and
    [updatedAt] is the clock reading of the call. *)
Lemma mergeProject_fields (existing : Project.t) (projectData : PartialInsertProject.t)
  (now : Date) :
  let updated := mergeProject existing projectData now in
  Project.title updated
  = spread (Project.title existing) (PartialInsertProject.title projectData) /\
  Project.slug updated
  = spread (Project.slug existing) (PartialInsertProject.slug projectData) /\
  Project.description updated
  = spread (Project.description existing) (PartialInsertProject.description projectData) /\
  Project.content updated
  = spread (Project.content existing) (PartialInsertProject.content projectData) /\
  Project.featuredImage updated
  = spread (Project.featuredImage existing) (PartialInsertProject.featuredImage projectData) /\
  Project.category updated
  = spread (Project.category existing) (PartialInsertProject.category projectData) /\
  Project.tags updated
  = spread (Project.tags existing) (PartialInsertProject.tags projectData) /\
  Project.status updated
  = spread (Project.status existing) (PartialInsertProject.status projectData) /\
  Project.authorId updated
  = spread (Project.authorId existing) (PartialInsertProject.authorId projectData) /\
  Project.updatedAt updated = now /\
  Project.id updated = Project.id existing /\
  Project.createdAt updated = Project.createdAt existing.
Proof. repeat split. Qed.

(** A payload that supplies nothing changes [updatedAt] only. *)
Lemma mergeProject_empty (existing : Project.t) (now : Date) :
  mergeProject existing PartialInsertProject.empty now
  = {| Project.id := Project.id existing;
       Project.title := Project.title existing;
       Project.slug := Project.slug existing;
       Project.description := Project.description existing;
       Project.content := Project.content existing;
       Project.featuredImage := Project.featuredImage existing;
       Project.category := Project.category existing;
       Project.tags := Project.tags existing;
       Project.status := Project.status existing;
       Project.createdAt := Project.createdAt existing;
       Project.updatedAt := now;
       Project.authorId := Project.authorId existing |}.
Proof. reflexivity. Qed.

(** C10. When a project is stored under the id, [updateProject] is
    fulfilled for every partial payload, and the record it returns, which
    is also the record then stored under the id, has the id and the
    [createdAt] of the record stored before. *)
Theorem updateProject_keeps_id_and_createdAt
  (clock : nat -> Date) (id : Z) (projectData : PartialInsertProject.t)
  (w : World MemStorage.t) (existing : Project.t) :
  JsMap.get Z.eqb id (MemStorage.projects (store w)) = Some existing ->
  exists updated w',
    MemStorage.updateProject clock id projectData w = (Fulfilled updated, w') /\
    JsMap.get Z.eqb id (MemStorage.projects (store w')) = Some updated /\
    Project.id updated = Project.id existing /\
    Project.createdAt updated = Project.createdAt existing.
Proof.
  intro E. rewrite (updateProject_present clock id projectData w existing E).
  eexists. eexists. split; [reflexivity|]. simpl. split.
  - apply get_set_same. exact Z.eqb_eq.
  - split; reflexivity.
Qed.

(** C10 at work: the project created first, then published. *)
Lemma updateProject_keeps_id_and_createdAt_witness :
  JsMap.get Z.eqb 1 (MemStorage.projects (store afterFirstProject))
  = Some (mergeProject firstRow PartialInsertProject.empty (mkDate 1700000000001)) /\
  exists updated w',
    MemStorage.updateProject tickingClock 1 publishOnly afterFirstProject
    = (Fulfilled updated, w') /\
    JsMap.get Z.eqb 1 (MemStorage.projects (store w')) = Some updated /\
    Project.id updated
    = Project.id (mergeProject firstRow PartialInsertProject.empty (mkDate 1700000000001)) /\
    Project.createdAt updated
    = Project.createdAt
        (mergeProject firstRow PartialInsertProject.empty (mkDate 1700000000001)).
Proof.
  split.
  - reflexivity.
  - apply (updateProject_keeps_id_and_createdAt tickingClock 1 publishOnly
             afterFirstProject
             (mergeProject firstRow PartialInsertProject.empty (mkDate 1700000000001))).
    reflexivity.
Defined.

(** The scenario of the specification, step 2: publishing project 1 under
    a clock that has moved on. *)
Example updateProject_publishes :
  exists updated w',
    MemStorage.updateProject tickingClock 1 publishOnly afterFirstProject
    = (Fulfilled updated, w') /\
    Project.id updated = 1 /\
    Project.status updated = "published" /\
    Project.slug updated = "my-first-project" /\
    getTime (Project.createdAt updated) < getTime (Project.updatedAt updated).
Proof. cbv. eexists. eexists. repeat split. Qed.

(** *** The persistent variant *)

Lemma filter_no_match (rows : list Project.t) (id : Z) :
  (forall r, In r rows -> Project.id r <> id) ->
  filter (fun r => Project.id r =? id) rows = [] /\
  forall set : Project.t -> Project.t,
    map (fun r => if Project.id r =? id then set r else r) rows = rows.
Proof.
  induction rows as [|r rows IH]; simpl; intro H; [split; reflexivity|].
  assert (E : (Project.id r =? id) = false).
  { apply Z.eqb_neq. apply H. now left. }
  destruct IH as [IH1 IH2]; [intros r' Hr'; apply H; now right|].
  rewrite E. split; [exact IH1|]. intro set. now rewrite IH2.
Qed.

(** On an id that no row carries, the only way [updateProject] can be
    rejected is by an error of the database itself; the method raises
    nothing of its own. *)
Lemma DatabaseStorage_updateProject_absent
  (clock : nat -> Date)
  (refusal : list Project.t -> Z -> PartialInsertProject.t -> Date -> option Error)
  (id : Z) (project : PartialInsertProject.t) (n : nat) (rows : list Project.t) :
  (forall r, In r rows -> Project.id r <> id) ->
  DatabaseStorage.updateProject clock refusal id project
    (mkWorld n (DatabaseStorage.mk rows))
  = (match refusal rows id project (clock n) with
     | Some e => Rejected e
     | None => Fulfilled None
     end,
     mkWorld (Datatypes.S n) (DatabaseStorage.mk rows)).
Proof.
  intro H. destruct (filter_no_match rows id H) as [H1 H2].
  settle. destruct (refusal rows id project (clock n)); [reflexivity|].
  rewrite H1. simpl. now rewrite H2.
Qed.

(** C3, where the code departs from it.  Whatever the projects table
    holds, the payload and the clock: when no row carries the id and the
    database carries the statement out, [DatabaseStorage.updateProject]
    does not reject.  The update matches no row, the destructuring finds
    nothing, and the promise is fulfilled with [undefined]; the table is
    left as it was. *)
Theorem DatabaseStorage_updateProject_unknown_id_is_fulfilled
  (clock : nat -> Date)
  (refusal : list Project.t -> Z -> PartialInsertProject.t -> Date -> option Error)
  (id : Z) (project : PartialInsertProject.t) (n : nat) (rows : list Project.t) :
  (forall r, In r rows -> Project.id r <> id) ->
  refusal rows id project (clock n) = None ->
  DatabaseStorage.updateProject clock refusal id project
    (mkWorld n (DatabaseStorage.mk rows))
  = (Fulfilled None, mkWorld (Datatypes.S n) (DatabaseStorage.mk rows)).
Proof.
  intros H R. rewrite (DatabaseStorage_updateProject_absent clock refusal id project n rows H).
  now rewrite R.
Qed.

(** C3 at the failing input: a table whose only row has id 1, and
    [updateProject(99, { status: "published" })]. *)
Lemma DatabaseStorage_updateProject_unknown_id_witness :
  (forall r, In r [firstRow] -> Project.id r <> 99) /\
  accepting [firstRow] 99 publishOnly (tickingClock 0) = None /\
  DatabaseStorage.updateProject tickingClock accepting 99 publishOnly
    (mkWorld 0 (DatabaseStorage.mk [firstRow]))
  = (Fulfilled None, mkWorld 1 (DatabaseStorage.mk [firstRow])).
Proof.
  assert (H : forall r, In r [firstRow] -> Project.id r <> 99).
  { intros r [<-|[]]. simpl. lia. }
  split; [exact H|]. split; [reflexivity|].
  apply (DatabaseStorage_updateProject_unknown_id_is_fulfilled
           tickingClock accepting 99 publishOnly 0%nat [firstRow] H).
  reflexivity.
Defined.

(** The same call on [MemStorage] holding that one project is rejected. *)
Example MemStorage_updateProject_unknown_id_is_rejected
  (clock : nat -> Date) (project : PartialInsertProject.t) :
  MemStorage.updateProject clock 99 project afterFirstProject
  = (Rejected (mkError "Project with id 99 not found"), afterFirstProject).
Proof. reflexivity. Qed.

(** On a row that is there the persistent variant merges like the
    in-process one. *)
Example DatabaseStorage_updateProject_publishes :
  DatabaseStorage.updateProject tickingClock accepting 1 publishOnly
    (mkWorld 2 (DatabaseStorage.mk [firstRow]))
  = (Fulfilled (Some (mergeProject firstRow publishOnly (mkDate 1700000000002))),
     mkWorld 3
       (DatabaseStorage.mk [mergeProject firstRow publishOnly (mkDate 1700000000002)])).
Proof. reflexivity. Qed.

(** ** Upserting a user *)

(** Without an id the call is rejected and nothing changes. *)
Lemma upsertUser_requires_id
  (clock : nat -> Date) (userData : UpsertUser.t) (w : World MemStorage.t) :
  orNull (UpsertUser.id userData) = None ->
  MemStorage.upsertUser clock userData w
  = (Rejected (mkError "User ID is required"), w).
Proof. intro E. unfold MemStorage.upsertUser. now rewrite E. Qed.

(** On a user that is stored with a creation date, the call keeps that
    date, stamps [updatedAt] with the clock reading of the call, and
    takes every other field from the payload alone. *)
Lemma upsertUser_existing
  (clock : nat -> Date) (userData : UpsertUser.t) (w : World MemStorage.t)
  (id : string) (existing : User.t) (created : Date) :
  orNull (UpsertUser.id userData) = Some id ->
  JsMap.get String.eqb id (MemStorage.users (store w)) = Some existing ->
  User.createdAt existing = Some created ->
  exists user w',
    MemStorage.upsertUser clock userData w = (Fulfilled user, w') /\
    User.createdAt user = Some created /\
    User.updatedAt user = Some (clock (ticks w)) /\
    User.email user = orNull (UpsertUser.email userData) /\
    User.firstName user = orNull (UpsertUser.firstName userData) /\
    User.lastName user = orNull (UpsertUser.lastName userData) /\
    JsMap.get String.eqb id (MemStorage.users (store w')) = Some user.
Proof.
  intros Eid Eget Ecreated. unfold MemStorage.upsertUser. rewrite Eid.
  settle. rewrite Eget. destruct existing as [i e f l p c u]. simpl in Ecreated.
  subst c. simpl.
  eexists. eexists. split; [reflexivity|]. simpl.
  repeat (split; [reflexivity|]).
  apply get_set_same. exact String.eqb_eq.
Qed.

(** Two upserts under one id, in any state: each call builds its record
    from its own payload; the second keeps the [createdAt] of the first
    and stamps [updatedAt] with the very next clock reading. *)
Lemma upsertUser_twice
  (clock : nat -> Date) (firstData secondData : UpsertUser.t)
  (w : World MemStorage.t) (id : string) :
  orNull (UpsertUser.id firstData) = Some id ->
  orNull (UpsertUser.id secondData) = Some id ->
  exists first w1 second w2 k,
    MemStorage.upsertUser clock firstData w = (Fulfilled first, w1) /\
    MemStorage.upsertUser clock secondData w1 = (Fulfilled second, w2) /\
    User.createdAt second = User.createdAt first /\
    User.updatedAt first = Some (clock k) /\
    User.updatedAt second = Some (clock (Datatypes.S k)) /\
    User.firstName first = orNull (UpsertUser.firstName firstData) /\
    User.lastName first = orNull (UpsertUser.lastName firstData) /\
    User.firstName second = orNull (UpsertUser.firstName secondData) /\
    User.lastName second = orNull (UpsertUser.lastName secondData) /\
    User.email second = orNull (UpsertUser.email secondData) /\
    JsMap.get String.eqb id (MemStorage.users (store w2)) = Some second.
Proof.
  intros E1 E2. unfold MemStorage.upsertUser. rewrite E1, E2. settle.
  destruct (JsMap.get String.eqb id (MemStorage.users (store w)))
    as [[i e f l p [created|] u]|]; simpl;
    do 5 eexists;
    (split; [reflexivity|]);
    (split; [simpl; rewrite (get_set_same String.eqb String.eqb_eq); reflexivity|]);
    simpl; repeat (split; [reflexivity|]);
    apply get_set_same; exact String.eqb_eq.
Qed.

(** Under a clock that moves on at every reading the second [updatedAt]
    is strictly later than the first. *)
Lemma upsertUser_twice_refreshes
  (clock : nat -> Date) (firstData secondData : UpsertUser.t)
  (w : World MemStorage.t) (id : string) :
  (forall n, getTime (clock n) < getTime (clock (Datatypes.S n))) ->
  orNull (UpsertUser.id firstData) = Some id ->
  orNull (UpsertUser.id secondData) = Some id ->
  exists first w1 second w2 t1 t2,
    MemStorage.upsertUser clock firstData w = (Fulfilled first, w1) /\
    MemStorage.upsertUser clock secondData w1 = (Fulfilled second, w2) /\
    User.updatedAt first = Some t1 /\
    User.updatedAt second = Some t2 /\
    getTime t1 < getTime t2.
Proof.
  intros mono E1 E2.
  destruct (upsertUser_twice clock firstData secondData w id E1 E2)
    as [u1 [w1 [u2 [w2 [k [H1 [H2 [_ [H3 [H4 _]]]]]]]]]].
  exists u1, w1, u2, w2, (clock k), (clock (Datatypes.S k)).
  repeat split; try assumption. apply mono.
Qed.

(** C1, where the code departs from it.  In any state, a user is
    upserted and then upserted again under the same id by a payload that
    has no first and no last name: both calls are fulfilled, [createdAt]
    is kept and [updatedAt] is the next clock reading, but the record
    that the second call returns and stores has null for [firstName] and
    [lastName], whatever names the first call stored. *)
Theorem upsertUser_second_call_erases_names
  (clock : nat -> Date) (firstData secondData : UpsertUser.t)
  (w : World MemStorage.t) (id : string) :
  orNull (UpsertUser.id firstData) = Some id ->
  orNull (UpsertUser.id secondData) = Some id ->
  UpsertUser.firstName secondData = None ->
  UpsertUser.lastName secondData = None ->
  exists first w1 second w2 k,
    MemStorage.upsertUser clock firstData w = (Fulfilled first, w1) /\
    MemStorage.upsertUser clock secondData w1 = (Fulfilled second, w2) /\
    User.firstName first = orNull (UpsertUser.firstName firstData) /\
    User.lastName first = orNull (UpsertUser.lastName firstData) /\
    User.firstName second = None /\
    User.lastName second = None /\
    User.email second = orNull (UpsertUser.email secondData) /\
    User.createdAt second = User.createdAt first /\
    User.updatedAt first = Some (clock k) /\
    User.updatedAt second = Some (clock (Datatypes.S k)) /\
    MemStorage.getUser id w2 = (Fulfilled (Some second), w2).
Proof.
  intros E1 E2 Ef El.
  destruct (upsertUser_twice clock firstData secondData w id E1 E2)
    as [u1 [w1 [u2 [w2 [k [H1 [H2 [Hc [Ht1 [Ht2 [Hf1 [Hl1 [Hf2 [Hl2 [He Hg]]]]]]]]]]]]]]].
  rewrite Ef in Hf2. rewrite El in Hl2. simpl in Hf2, Hl2.
  exists u1, w1, u2, w2, k.
  repeat (split; [assumption|]).
  unfold MemStorage.getUser, gets. now rewrite Hg.
Qed.

(** C1 at the failing input: "Developer User" is upserted into the empty
    store and then again with a new email only. *)
Lemma upsertUser_second_call_erases_names_witness :
  orNull (UpsertUser.id fullUser) = Some "mock-user-123" /\
  orNull (UpsertUser.id emailOnly) = Some "mock-user-123" /\
  UpsertUser.firstName emailOnly = None /\
  UpsertUser.lastName emailOnly = None /\
  UpsertUser.firstName fullUser = Some "Developer" /\
  UpsertUser.lastName fullUser = Some "User" /\
  exists first w1 second w2 k,
    MemStorage.upsertUser tickingClock fullUser start = (Fulfilled first, w1) /\
    MemStorage.upsertUser tickingClock emailOnly w1 = (Fulfilled second, w2) /\
    User.firstName first = orNull (UpsertUser.firstName fullUser) /\
    User.lastName first = orNull (UpsertUser.lastName fullUser) /\
    User.firstName second = None /\
    User.lastName second = None /\
    User.email second = orNull (UpsertUser.email emailOnly) /\
    User.createdAt second = User.createdAt first /\
    User.updatedAt first = Some (tickingClock k) /\
    User.updatedAt second = Some (tickingClock (Datatypes.S k)) /\
    MemStorage.getUser "mock-user-123" w2 = (Fulfilled (Some second), w2).
Proof.
  do 6 (split; [reflexivity|]).
  apply (upsertUser_second_call_erases_names tickingClock fullUser emailOnly start
           "mock-user-123"); reflexivity.
Defined.

(** The records themselves. *)
Example upsertUser_email_only_from_start (clock : nat -> Date) :
  exists first w1 second w2,
    MemStorage.upsertUser clock fullUser start = (Fulfilled first, w1) /\
    MemStorage.upsertUser clock emailOnly w1 = (Fulfilled second, w2) /\
    User.firstName first = Some "Developer" /\
    User.lastName first = Some "User" /\
    User.firstName second = None /\
    User.lastName second = None /\
    User.email second = Some "new@example.com" /\
    User.createdAt first = Some (clock 0%nat) /\
    User.createdAt second = Some (clock 0%nat) /\
    User.updatedAt first = Some (clock 1%nat) /\
    User.updatedAt second = Some (clock 2%nat).
Proof.
  do 4 eexists. split; [cbv; reflexivity|]. split; [cbv; reflexivity|]. repeat split.
Qed.

(** ** Slugs *)

(** C2, where the code departs from it.  In every state, creating a
    project and then creating one from the same payload, hence with the
    same slug, fulfils both calls; both records are stored, under
    consecutive ids, with that one slug. *)
Theorem createProject_accepts_a_slug_twice
  (clock : nat -> Date) (projectData : InsertProject.t) (w : World MemStorage.t) :
  exists first w1 second w2,
    MemStorage.createProject clock projectData w = (Fulfilled first, w1) /\
    MemStorage.createProject clock projectData w1 = (Fulfilled second, w2) /\
    Project.slug first = InsertProject.slug projectData /\
    Project.slug second = InsertProject.slug projectData /\
    Project.id second = Project.id first + 1 /\
    JsMap.get Z.eqb (Project.id first) (MemStorage.projects (store w2)) = Some first /\
    JsMap.get Z.eqb (Project.id second) (MemStorage.projects (store w2)) = Some second.
Proof.
  settle. do 4 eexists. split; [reflexivity|]. split; [reflexivity|]. simpl.
  do 3 (split; [reflexivity|]). split.
  - rewrite (get_set_other Z.eqb Z.eqb_eq); [|lia].
    apply get_set_same. exact Z.eqb_eq.
  - apply get_set_same. exact Z.eqb_eq.
Qed.

(** Two projects titled alike: both creations succeed from the empty
    store, and the slug then finds the older one only. *)
Example createProject_same_slug_from_start :
  exists first w1 second w2,
    MemStorage.createProject tickingClock firstProject start = (Fulfilled first, w1) /\
    MemStorage.createProject tickingClock firstProject w1 = (Fulfilled second, w2) /\
    Project.id first = 1 /\
    Project.id second = 2 /\
    Project.slug first = "my-first-project" /\
    Project.slug second = "my-first-project" /\
    JsMap.values (MemStorage.projects (store w2)) = [first; second] /\
    MemStorage.getProjectBySlug "my-first-project" w2 = (Fulfilled (Some first), w2).
Proof.
  do 4 eexists. split; [cbv; reflexivity|]. split; [cbv; reflexivity|]. repeat split.
Qed.

(** ** Ids over a run *)

Section TableFacts.
Context {V : Type}.
Variable idOf : V -> Z.

Lemma tableOk_create (m : list (Z * V)) (next : Z) (v : V) :
  tableOk idOf m next -> idOf v = next ->
  tableOk idOf (JsMap.set Z.eqb next v m) (next + 1).
Proof.
  intros [Hd Hf] Hv. split.
  - now apply NoDup_keys_set; [exact Z.eqb_eq|].
  - apply Forall_forall. intros e He.
    apply In_set in He. destruct He as [->|He]; simpl.
    + split; [exact Hv|lia].
    + rewrite Forall_forall in Hf. destruct (Hf e He). split; [assumption|lia].
Qed.

Lemma tableOk_update (m : list (Z * V)) (next k : Z) (v0 v : V) :
  tableOk idOf m next -> JsMap.get Z.eqb k m = Some v0 -> idOf v = idOf v0 ->
  tableOk idOf (JsMap.set Z.eqb k v m) next.
Proof.
  intros [Hd Hf] Hg Hv. rewrite Forall_forall in Hf.
  apply (get_In Z.eqb Z.eqb_eq) in Hg. destruct (Hf _ Hg) as [H1 H2]. simpl in *.
  split.
  - now apply NoDup_keys_set; [exact Z.eqb_eq|].
  - apply Forall_forall. intros e He.
    apply In_set in He. destruct He as [->|He]; simpl.
    + split; [congruence|exact H2].
    + now apply Hf.
Qed.

Lemma tableOk_delete (m : list (Z * V)) (next k : Z) :
  tableOk idOf m next -> tableOk idOf (JsMap.delete Z.eqb k m) next.
Proof.
  intros [Hd Hf]. split.
  - now apply NoDup_keys_delete.
  - rewrite Forall_forall in *. intros e He.
    unfold JsMap.delete in He. apply filter_In in He. now apply Hf.
Qed.

(** The records of a well-formed map carry pairwise different ids. *)
Lemma tableOk_distinct_ids (m : list (Z * V)) (next : Z) :
  tableOk idOf m next -> NoDup (map idOf (JsMap.values m)).
Proof.
  intros [Hd Hf].
  replace (map idOf (JsMap.values m)) with (JsMap.keys m); [exact Hd|].
  clear Hd. induction Hf as [|e m [He _] _ IH]; simpl; [reflexivity|].
  now rewrite He, IH.
Qed.

End TableFacts.

Lemma handedOut_none lo hi : lo <= hi -> handedOut [] lo hi.
Proof. intro H. repeat split; [exact H|constructor|constructor]. Qed.

Lemma handedOut_one n : handedOut [n] n (n + 1).
Proof.
  repeat split; [lia| |].
  - constructor; constructor.
  - constructor; [lia|constructor].
Qed.

Lemma handedOut_app a b lo mid hi :
  handedOut a lo mid -> handedOut b mid hi -> handedOut (a ++ b) lo hi.
Proof.
  intros [H1 [Ha Fa]] [H2 [Hb Fb]]. split; [lia|]. split.
  - induction Ha as [|x a Ha IH Hx]; simpl; [exact Hb|].
    inversion Fa as [|? ? Fx Fa']; subst.
    constructor; [now apply IH|].
    apply Forall_app. split; [exact Hx|].
    eapply Forall_impl; [|exact Fb]. simpl. intros y Hy. lia.
  - apply Forall_app. split.
    + eapply Forall_impl; [|exact Fa]. simpl. intros y Hy. lia.
    + eapply Forall_impl; [|exact Fb]. simpl. intros y Hy. lia.
Qed.

Lemma handedOut_NoDup ids lo hi : handedOut ids lo hi -> NoDup ids.
Proof.
  intros [_ [Hs _]]. induction Hs as [|x ids Hs IH Hx]; constructor; [|exact IH].
  intro Hin. rewrite Forall_forall in Hx. specialize (Hx _ Hin). lia.
Qed.

(** One call keeps the store well formed and hands out at most the id at
    which the matching counter stood. *)
Lemma call_ok (clock : nat -> Date) (c : Call) (w : World MemStorage.t) :
  wellFormed (store w) ->
  wellFormed (store (snd (call clock c w))) /\
  handedOut (projectIds (fst (call clock c w)))
    (MemStorage.nextProjectId (store w))
    (MemStorage.nextProjectId (store (snd (call clock c w)))) /\
  handedOut (mediaIds (fst (call clock c w)))
    (MemStorage.nextMediaId (store w))
    (MemStorage.nextMediaId (store (snd (call clock c w)))) /\
  handedOut (contactIds (fst (call clock c w)))
    (MemStorage.nextContactId (store w))
    (MemStorage.nextContactId (store (snd (call clock c w)))).
Proof.
  intro H. destruct c as [d|d|id d|id|d|id|d typed|id st]; unfold call, silent, assigned.
  - unfold MemStorage.upsertUser.
    destruct (orNull (UpsertUser.id d)) as [uid|]; [|untouched H].
    settle.
    destruct (JsMap.get String.eqb uid (MemStorage.users (store w)))
      as [[i e f l p [created|] u]|]; untouched H.
  - settle. destruct H as [Hp [Hm Hc]]. unfold wellFormed. simpl.
    repeat match goal with |- _ /\ _ => split end;
      try assumption; try (apply handedOut_none; lia).
    + now apply tableOk_create.
    + apply handedOut_one.
  - settle.
    destruct (JsMap.get Z.eqb id (MemStorage.projects (store w))) as [existing|] eqn:E;
      [|untouched H].
    destruct H as [Hp [Hm Hc]]. unfold wellFormed. simpl.
    repeat match goal with |- _ /\ _ => split end;
      try assumption; try (apply handedOut_none; lia).
    now apply (tableOk_update Project.id _ _ id existing).
  - settle. destruct H as [Hp [Hm Hc]]. unfold wellFormed. simpl.
    repeat match goal with |- _ /\ _ => split end;
      try assumption; try (apply handedOut_none; lia).
    now apply tableOk_delete.
  - settle. destruct H as [Hp [Hm Hc]]. unfold wellFormed. simpl.
    repeat match goal with |- _ /\ _ => split end;
      try assumption; try (apply handedOut_none; lia).
    + now apply tableOk_create.
    + apply handedOut_one.
  - settle. destruct H as [Hp [Hm Hc]]. unfold wellFormed. simpl.
    repeat match goal with |- _ /\ _ => split end;
      try assumption; try (apply handedOut_none; lia).
    now apply tableOk_delete.
  - settle. rewrite typed. simpl.
    destruct H as [Hp [Hm Hc]]. unfold wellFormed. simpl.
    repeat match goal with |- _ /\ _ => split end;
      try assumption; try (apply handedOut_none; lia).
    + now apply tableOk_create.
    + apply handedOut_one.
  - settle.
    destruct (JsMap.get Z.eqb id (MemStorage.contacts (store w))) as [existing|] eqn:E;
      [|untouched H].
    destruct H as [Hp [Hm Hc]]. unfold wellFormed. simpl.
    repeat match goal with |- _ /\ _ => split end;
      try assumption; try (apply handedOut_none; lia).
    now apply (tableOk_update ContactSubmission.id _ _ id existing).
Qed.

Lemma projectIds_app a b : projectIds (a ++ b) = projectIds a ++ projectIds b.
Proof. apply flat_map_app. Qed.

Lemma mediaIds_app a b : mediaIds (a ++ b) = mediaIds a ++ mediaIds b.
Proof. apply flat_map_app. Qed.

Lemma contactIds_app a b : contactIds (a ++ b) = contactIds a ++ contactIds b.
Proof. apply flat_map_app. Qed.

Lemma run_cons clock c calls w :
  run clock (c :: calls) w
  = (fst (call clock c w) ++ fst (run clock calls (snd (call clock c w))),
     snd (run clock calls (snd (call clock c w)))).
Proof.
  simpl. destruct (call clock c w) as [here w1]. simpl.
  now destruct (run clock calls w1).
Qed.

(** A run from a well-formed store ends in a well-formed store, and the
    ids each counter handed out on the way go strictly up. *)
Lemma run_ok (clock : nat -> Date) (calls : list Call) :
  forall w : World MemStorage.t,
  wellFormed (store w) ->
  wellFormed (store (snd (run clock calls w))) /\
  handedOut (projectIds (fst (run clock calls w)))
    (MemStorage.nextProjectId (store w))
    (MemStorage.nextProjectId (store (snd (run clock calls w)))) /\
  handedOut (mediaIds (fst (run clock calls w)))
    (MemStorage.nextMediaId (store w))
    (MemStorage.nextMediaId (store (snd (run clock calls w)))) /\
  handedOut (contactIds (fst (run clock calls w)))
    (MemStorage.nextContactId (store w))
    (MemStorage.nextContactId (store (snd (run clock calls w)))).
Proof.
  induction calls as [|c calls IH]; intros w H.
  - simpl. repeat split; try apply H; try lia; constructor.
  - rewrite run_cons. simpl fst. simpl snd.
    destruct (call_ok clock c w H) as [H1 [Hp [Hm Hc]]].
    destruct (IH _ H1) as [H2 [Hp' [Hm' Hc']]].
    split; [exact H2|].
    rewrite projectIds_app, mediaIds_app, contactIds_app.
    repeat split; eapply handedOut_app; eassumption.
Qed.

Lemma init_wellFormed : wellFormed MemStorage.init.
Proof. repeat split; constructor. Qed.

(** C8. Whatever calls a process makes on the store it constructed, and
    in whatever order: the ids handed out by the creates of one entity
    type go strictly up, so none is handed out twice, deleted or not; and
    the records that are live at the end carry pairwise different ids.
    This holds for projects, media and contacts alike. *)
Theorem ids_are_never_reused (clock : nat -> Date) (calls : list Call) (n : nat) :
  let trace := fst (run clock calls (mkWorld n MemStorage.init)) in
  let final := store (snd (run clock calls (mkWorld n MemStorage.init))) in
  (StronglySorted Z.lt (projectIds trace) /\ NoDup (projectIds trace) /\
   NoDup (map Project.id (JsMap.values (MemStorage.projects final)))) /\
  (StronglySorted Z.lt (mediaIds trace) /\ NoDup (mediaIds trace) /\
   NoDup (map Media.id (JsMap.values (MemStorage.media final)))) /\
  (StronglySorted Z.lt (contactIds trace) /\ NoDup (contactIds trace) /\
   NoDup (map ContactSubmission.id (JsMap.values (MemStorage.contacts final)))).
Proof.
  intros trace final.
  destruct (run_ok clock calls (mkWorld n MemStorage.init) init_wellFormed)
    as [[Wp [Wm Wc]] [Hp [Hm Hc]]].
  fold trace in Hp, Hm, Hc. fold final in Wp, Wm, Wc.
  repeat split.
  - apply Hp.
  - eapply handedOut_NoDup; exact Hp.
  - eapply tableOk_distinct_ids; exact Wp.
  - apply Hm.
  - eapply handedOut_NoDup; exact Hm.
  - eapply tableOk_distinct_ids; exact Wm.
  - apply Hc.
  - eapply handedOut_NoDup; exact Hc.
  - eapply tableOk_distinct_ids; exact Wc.
Qed.

(** Create, delete, create again: the second project gets id 2, not the
    id the deleted one gave up. *)
Example id_not_reclaimed_after_delete :
  fst (run tickingClock createDeleteCreate start) = [ProjectId 1; ProjectId 2] /\
  JsMap.keys
    (MemStorage.projects (store (snd (run tickingClock createDeleteCreate start))))
  = [2].
Proof. split; reflexivity. Qed.

(** * Further properties of the storage code *)

(** ** More on the sort: it commutes with filtering and with edits that
    keep the key *)

Section ArraySortMore.
Context {A : Type}.
Variable key : A -> Z.
Variable compare : A -> A -> Z.
Hypothesis compare_key : forall a b, compare a b = key b - key a.

Lemma StronglySorted_filter (R : A -> A -> Prop) (f : A -> bool) (l : list A) :
  StronglySorted R l -> StronglySorted R (filter f l).
Proof.
  induction 1 as [|x l Hs IH Hx]; simpl; [constructor|].
  destruct (f x); [|exact IH].
  constructor; [exact IH|].
  rewrite Forall_forall in *. intros y Hy. apply filter_In in Hy. now apply Hx.
Qed.

Lemma filter_filter_swap (f g : A -> bool) (l : list A) :
  filter f (filter g l) = filter g (filter f l).
Proof.
  induction l as [|x l IH]; simpl; [reflexivity|].
  destruct (f x) eqn:F; destruct (g x) eqn:G; simpl; rewrite ?F, ?G, IH; reflexivity.
Qed.

Lemma Array_sort_filter (f : A -> bool) (l : list A) :
  Array_sort compare (filter f l) = filter f (Array_sort compare l).
Proof.
  symmetry. apply (stable_sort_unique key compare compare_key).
  - apply StronglySorted_filter. now apply Array_sort_sorted.
  - intro c. rewrite filter_filter_swap.
    rewrite (Array_sort_stable key compare compare_key).
    apply filter_filter_swap.
Qed.

Lemma sort_insert_map (g : A -> A) (x : A) (l : list A) :
  key (g x) = key x -> (forall a, In a l -> key (g a) = key a) ->
  sort_insert compare (g x) (map g l) = map g (sort_insert compare x l).
Proof.
  intros Hx Hg. induction l as [|y l IH]; simpl; [reflexivity|].
  rewrite !compare_key, Hx, (Hg y (or_introl eq_refl)).
  destruct (key y - key x <=? 0); simpl; [reflexivity|].
  rewrite IH; [reflexivity|]. intros a Ha. apply Hg. now right.
Qed.

Lemma Array_sort_map (g : A -> A) (l : list A) :
  (forall a, In a l -> key (g a) = key a) ->
  Array_sort compare (map g l) = map g (Array_sort compare l).
Proof.
  intro Hg. induction l as [|x l IH]; simpl; [reflexivity|].
  rewrite IH; [|intros a Ha; apply Hg; now right].
  apply sort_insert_map; [apply Hg; now left|].
  intros a Ha. apply Hg. right.
  exact (Permutation_in _ (Array_sort_perm compare l) Ha).
Qed.

End ArraySortMore.

(** ** More on the maps: what [values()] shows after a change *)

Section TableValues.
Context {V : Type}.
Variable idOf : V -> Z.

Lemma values_delete (m : list (Z * V)) (next k : Z) :
  tableOk idOf m next ->
  JsMap.values (JsMap.delete Z.eqb k m)
  = filter (fun v => negb (idOf v =? k)) (JsMap.values m).
Proof.
  intros [_ Hf]. unfold JsMap.values, JsMap.delete.
  induction Hf as [|[k' v] m [He _] _ IH]; simpl; [reflexivity|].
  simpl in He. rewrite He. rewrite (Z.eqb_sym k' k).
  destruct (k =? k'); simpl; now rewrite IH.
Qed.

Lemma values_set_present (m : list (Z * V)) (next k : Z) (v0 v : V) :
  tableOk idOf m next ->
  JsMap.get Z.eqb k m = Some v0 ->
  JsMap.values (JsMap.set Z.eqb k v m)
  = map (fun x => if idOf x =? k then v else x) (JsMap.values m).
Proof.
  intros [Hd Hf] Hg.
  destruct (set_present Z.eqb Z.eqb_eq k v0 v m Hg) as [b [a [Hm [Hn Hs]]]].
  rewrite Hs. subst m. unfold JsMap.values, JsMap.keys in *.
  rewrite !map_app. simpl.
  rewrite map_app in Hd. simpl in Hd. apply NoDup_remove_2 in Hd.
  apply Forall_app in Hf. destruct Hf as [Fb Fa].
  inversion Fa as [|? ? [Hk _] Fa']; subst. simpl in Hk.
  rewrite Hk, Z.eqb_refl. f_equal; [|f_equal].
  - clear - Fb Hn. induction Fb as [|[k' x] b [He _] _ IH]; simpl; [reflexivity|].
    simpl in He, Hn. rewrite He.
    destruct (k' =? k) eqn:E.
    + apply Z.eqb_eq in E. exfalso. apply Hn. now left.
    + f_equal. apply IH. intro H. apply Hn. now right.
  - assert (Ha : ~ In k (map fst a)).
    { intro H. apply Hd. apply in_or_app. now right. }
    clear - Fa' Ha. induction Fa' as [|[k' x] a [He _] _ IH]; simpl; [reflexivity|].
    simpl in He, Ha. rewrite He.
    destruct (k' =? k) eqn:E.
    + apply Z.eqb_eq in E. exfalso. apply Ha. now left.
    + f_equal. apply IH. intro H. apply Ha. now right.
Qed.

Lemma tableOk_In_values (m : list (Z * V)) (next : Z) (v : V) :
  tableOk idOf m next -> In v (JsMap.values m) ->
  JsMap.get Z.eqb (idOf v) m = Some v.
Proof.
  intros [Hd Hf] Hin. unfold JsMap.values, JsMap.keys in *.
  induction m as [|[k x] m IH]; simpl in *; [contradiction|].
  inversion Hd as [|? ? Hn Hd']; subst. inversion Hf as [|? ? [He _] Hf']; subst.
  simpl in He. destruct Hin as [->|Hin].
  - now rewrite He, Z.eqb_refl.
  - destruct (idOf v =? k) eqn:E; [|now apply IH].
    apply Z.eqb_eq in E. exfalso. apply Hn.
    specialize (IH Hd' Hf' Hin). apply (get_In Z.eqb Z.eqb_eq) in IH.
    rewrite E in IH. apply in_map_iff. now exists (k, v).
Qed.

Lemma tableOk_get (m : list (Z * V)) (next k : Z) (v : V) :
  tableOk idOf m next -> JsMap.get Z.eqb k m = Some v -> idOf v = k /\ k < next.
Proof.
  intros [_ Hf] Hg. apply (get_In Z.eqb Z.eqb_eq) in Hg.
  rewrite Forall_forall in Hf. exact (Hf _ Hg).
Qed.

End TableValues.

Lemma find_first {A : Type} (f : A -> bool) (l : list A) :
  match List.find f l with
  | Some x =>
      exists before after,
        l = before ++ x :: after /\ f x = true /\ Forall (fun y => f y = false) before
  | None => Forall (fun y => f y = false) l
  end.
Proof.
  induction l as [|y l IH]; simpl; [constructor|].
  destruct (f y) eqn:E.
  - exists [], l. repeat split; [exact E|constructor].
  - destruct (List.find f l) as [x|].
    + destruct IH as [b [a [Hl [Hx Hb]]]].
      exists (y :: b), a. subst l. repeat split; [exact Hx|now constructor].
    + now constructor.
Qed.

(** The states a process can be in. *)
Lemma reachable_wellFormed (clock : nat -> Date) (calls : list Call) (n : nat) :
  wellFormed (store (snd (run clock calls (mkWorld n MemStorage.init)))).
Proof. apply (run_ok clock calls (mkWorld n MemStorage.init)). exact init_wellFormed. Qed.

(** ** Projects: creating, finding, listing, deleting *)

(** X1. A project just created is what [getProject] returns for its id;
    every other id resolves to what it resolved to before, and users,
    media, contacts and their counters are as they were. *)
Theorem createProject_is_found_and_leaves_the_rest
  (clock : nat -> Date) (projectData : InsertProject.t) (w : World MemStorage.t) :
  exists project w',
    MemStorage.createProject clock projectData w = (Fulfilled project, w') /\
    MemStorage.getProject (Project.id project) w' = (Fulfilled (Some project), w') /\
    (forall other, other <> Project.id project ->
       fst (MemStorage.getProject other w') = fst (MemStorage.getProject other w)) /\
    MemStorage.users (store w') = MemStorage.users (store w) /\
    MemStorage.media (store w') = MemStorage.media (store w) /\
    MemStorage.contacts (store w') = MemStorage.contacts (store w) /\
    MemStorage.nextMediaId (store w') = MemStorage.nextMediaId (store w) /\
    MemStorage.nextContactId (store w') = MemStorage.nextContactId (store w).
Proof.
  settle. do 2 eexists. split; [reflexivity|]. simpl. split.
  - now rewrite (get_set_same Z.eqb Z.eqb_eq).
  - split; [|repeat split].
    intros other N. now rewrite (get_set_other Z.eqb Z.eqb_eq).
Qed.

(** X2. [getProjectBySlug] changes nothing and returns the project that
    was stored first among those with the slug; it returns nothing
    exactly when no stored project has the slug. *)
Theorem getProjectBySlug_returns_the_oldest_match (slug : string) (w : World MemStorage.t) :
  let stored := JsMap.values (MemStorage.projects (store w)) in
  exists found,
    MemStorage.getProjectBySlug slug w = (Fulfilled found, w) /\
    match found with
    | Some project =>
        Project.slug project = slug /\
        exists before after,
          stored = before ++ project :: after /\
          Forall (fun q => Project.slug q <> slug) before
    | None => Forall (fun q => Project.slug q <> slug) stored
    end.
Proof.
  intro stored. settle. eexists. split; [reflexivity|].
  unfold JsMap.find. fold stored.
  pose proof (find_first (fun p => (Project.slug p =? slug)%string) stored) as H.
  destruct (List.find (fun p => (Project.slug p =? slug)%string) stored) as [p|].
  - destruct H as [b [a [Hs [Hp Hb]]]]. split; [now apply String.eqb_eq|].
    exists b, a. split; [exact Hs|].
    eapply Forall_impl; [|exact Hb]. simpl. intros q Hq. now apply String.eqb_neq.
  - eapply Forall_impl; [|exact H]. simpl. intros q Hq. now apply String.eqb_neq.
Qed.

(** X3. In every state a process can reach, the record that [getProject]
    or [getMediaById] returns for an id carries that id, and the id lies
    below the counter that hands out the next one. *)
Theorem lookups_return_records_with_the_id_asked_for
  (clock : nat -> Date) (calls : list Call) (n : nat) (id : Z) :
  let w := snd (run clock calls (mkWorld n MemStorage.init)) in
  match fst (MemStorage.getProject id w) with
  | Fulfilled (Some project) =>
      Project.id project = id /\ id < MemStorage.nextProjectId (store w)
  | Fulfilled None => True
  | Rejected _ => False
  end /\
  match fst (MemStorage.getMediaById id w) with
  | Fulfilled (Some m) => Media.id m = id /\ id < MemStorage.nextMediaId (store w)
  | Fulfilled None => True
  | Rejected _ => False
  end.
Proof.
  intro w. destruct (reachable_wellFormed clock calls n) as [Hp [Hm _]]. fold w in Hp, Hm.
  settle. split.
  - destruct (JsMap.get Z.eqb id (MemStorage.projects (store w))) as [p|] eqn:E; [|exact I].
    exact (tableOk_get Project.id _ _ _ _ Hp E).
  - destruct (JsMap.get Z.eqb id (MemStorage.media (store w))) as [m|] eqn:E; [|exact I].
    exact (tableOk_get Media.id _ _ _ _ Hm E).
Qed.

(** X4. In every state a process can reach, deleting a project takes
    exactly the records with that id out of every listing and leaves the
    others in the order they had. *)
Theorem deleteProject_removes_it_from_the_listings
  (clock : nat -> Date) (calls : list Call) (n : nat) (status : option string) (id : Z) :
  let w := snd (run clock calls (mkWorld n MemStorage.init)) in
  exists listed,
    MemStorage.getProjects status w = (Fulfilled listed, w) /\
    fst (MemStorage.getProjects status (snd (MemStorage.deleteProject id w)))
    = Fulfilled (filter (fun p => negb (Project.id p =? id)) listed) /\
    fst (MemStorage.getProject id (snd (MemStorage.deleteProject id w))) = Fulfilled None.
Proof.
  intro w. destruct (reachable_wellFormed clock calls n) as [Hp _]. fold w in Hp.
  settle. eexists. split; [reflexivity|]. split.
  - rewrite (values_delete Project.id _ _ id Hp).
    destruct (orNull status) as [st|]; f_equal.
    + rewrite filter_filter_swap.
      apply (Array_sort_filter (fun p => getTime (Project.createdAt p))).
      exact byCreatedAtDesc_key.
    + apply (Array_sort_filter (fun p => getTime (Project.createdAt p))).
      exact byCreatedAtDesc_key.
  - now rewrite get_delete_same.
Qed.

(** X5. A filtered listing is the full listing with the other statuses
    left out, in the same order; the empty string filters nothing, like
    no argument at all. *)
Theorem getProjects_filter_is_a_sublisting (status : option string) (w : World MemStorage.t) :
  exists everything,
    MemStorage.getProjects None w = (Fulfilled everything, w) /\
    MemStorage.getProjects status w
    = (Fulfilled
         match status with
         | None => everything
         | Some st =>
             if (st =? "")%string then everything
             else filter (fun p => (Project.status p =? st)%string) everything
         end, w).
Proof.
  settle. eexists. split; [reflexivity|].
  destruct status as [st|]; simpl; [|reflexivity].
  destruct (st =? "")%string; [reflexivity|].
  f_equal. f_equal.
  apply (Array_sort_filter (fun p => getTime (Project.createdAt p))).
  exact byCreatedAtDesc_key.
Qed.

(** ** Media and contacts *)

Lemma mediaByCreatedAtDesc_key a b :
  MemStorage.mediaByCreatedAtDesc a b
  = getTime (Media.createdAt b) - getTime (Media.createdAt a).
Proof. reflexivity. Qed.

Lemma contactByCreatedAtDesc_key a b :
  MemStorage.contactByCreatedAtDesc a b
  = getTime (ContactSubmission.createdAt b) - getTime (ContactSubmission.createdAt a).
Proof. reflexivity. Qed.

(** X6. [getMedia] and [getContacts] change nothing and return every
    stored record, each as often as it is stored, most recently created
    first; records created at the same instant keep the order in which
    they were stored. *)
Theorem getMedia_and_getContacts_list_newest_first (w : World MemStorage.t) :
  (exists listed,
     MemStorage.getMedia w = (Fulfilled listed, w) /\
     Permutation listed (JsMap.values (MemStorage.media (store w))) /\
     StronglySorted (descending (fun m => getTime (Media.createdAt m))) listed /\
     forall instant,
       filter (fun m => getTime (Media.createdAt m) =? instant) listed
       = filter (fun m => getTime (Media.createdAt m) =? instant)
           (JsMap.values (MemStorage.media (store w)))) /\
  (exists listed,
     MemStorage.getContacts w = (Fulfilled listed, w) /\
     Permutation listed (JsMap.values (MemStorage.contacts (store w))) /\
     StronglySorted (descending (fun c => getTime (ContactSubmission.createdAt c))) listed /\
     forall instant,
       filter (fun c => getTime (ContactSubmission.createdAt c) =? instant) listed
       = filter (fun c => getTime (ContactSubmission.createdAt c) =? instant)
           (JsMap.values (MemStorage.contacts (store w)))).
Proof.
  split; settle; eexists; (split; [reflexivity|]).
  - split; [apply Array_sort_perm|]. split.
    + apply Array_sort_sorted. exact mediaByCreatedAtDesc_key.
    + intro instant.
      apply (Array_sort_stable (fun m => getTime (Media.createdAt m))).
      exact mediaByCreatedAtDesc_key.
  - split; [apply Array_sort_perm|]. split.
    + apply Array_sort_sorted. exact contactByCreatedAtDesc_key.
    + intro instant.
      apply (Array_sort_stable (fun c => getTime (ContactSubmission.createdAt c))).
      exact contactByCreatedAtDesc_key.
Qed.

(** X7. [createMedia] is fulfilled for every payload: the record takes
    the value of the media counter as its id, the counter goes up by
    one, a missing or empty alt text or uploader is stored as null, and
    [getMediaById] returns the record for its id; every other media id
    resolves as before and users, projects and contacts are untouched. *)
Theorem createMedia_defaults_and_is_found
  (clock : nat -> Date) (mediaData : InsertMedia.t) (w : World MemStorage.t) :
  exists m w',
    MemStorage.createMedia clock mediaData w = (Fulfilled m, w') /\
    Media.id m = MemStorage.nextMediaId (store w) /\
    MemStorage.nextMediaId (store w') = Media.id m + 1 /\
    Media.createdAt m = clock (ticks w) /\
    match InsertMedia.altText mediaData with
    | None => Media.altText m = None
    | Some s => Media.altText m = if (s =? "")%string then None else Some s
    end /\
    match InsertMedia.uploadedBy mediaData with
    | None => Media.uploadedBy m = None
    | Some s => Media.uploadedBy m = if (s =? "")%string then None else Some s
    end /\
    MemStorage.getMediaById (Media.id m) w' = (Fulfilled (Some m), w') /\
    (forall other, other <> Media.id m ->
       fst (MemStorage.getMediaById other w') = fst (MemStorage.getMediaById other w)) /\
    MemStorage.users (store w') = MemStorage.users (store w) /\
    MemStorage.projects (store w') = MemStorage.projects (store w) /\
    MemStorage.contacts (store w') = MemStorage.contacts (store w).
Proof.
  settle. do 2 eexists. split; [reflexivity|]. simpl.
  do 3 (split; [reflexivity|]).
  split; [now destruct (InsertMedia.altText mediaData)|].
  split; [now destruct (InsertMedia.uploadedBy mediaData)|].
  split; [now rewrite (get_set_same Z.eqb Z.eqb_eq)|].
  split; [|repeat split].
  intros other N. now rewrite (get_set_other Z.eqb Z.eqb_eq).
Qed.

(** ** Updating in place *)


(** The message on a new store, for ids as the route may pass them on:
    99, [10^21], [2^60] and [NaN]. *)
Example updateProject_names_the_id_as_it_prints
  (clock : nat -> Date) (projectData : PartialInsertProject.t) :
  updateProjectAt clock (Integer 99) projectData start
  = (Rejected (mkError "Project with id 99 not found"), start) /\
  updateProjectAt clock (Integer (10 ^ 21)) projectData start
  = (Rejected (mkError "Project with id 1e+21 not found"), start) /\
  updateProjectAt clock (Integer (2 ^ 60)) projectData start
  = (Rejected (mkError "Project with id 1152921504606847000 not found"), start) /\
  updateProjectAt clock NaN projectData start
  = (Rejected (mkError "Project with id NaN not found"), start).
Proof. repeat split; vm_compute; reflexivity. Qed.

(** X9. In every state a process can reach, updating a project leaves
    the full listing as it was except that the project's record is
    replaced, at the place it had, by the merged one: an edit never moves
    a project in the list.  An unknown id leaves the listing alone. *)
Theorem updateProject_keeps_the_place_in_the_listing
  (clock : nat -> Date) (calls : list Call) (n : nat)
  (id : Z) (projectData : PartialInsertProject.t) :
  let w := snd (run clock calls (mkWorld n MemStorage.init)) in
  exists listed,
    MemStorage.getProjects None w = (Fulfilled listed, w) /\
    fst (MemStorage.getProjects None (snd (MemStorage.updateProject clock id projectData w)))
    = Fulfilled
        match JsMap.get Z.eqb id (MemStorage.projects (store w)) with
        | Some existing =>
            map (fun p =>
                   if Project.id p =? id
                   then mergeProject existing projectData (clock (ticks w)) else p)
              listed
        | None => listed
        end.
Proof.
  intro w. destruct (reachable_wellFormed clock calls n) as [Hp _]. fold w in Hp.
  settle. eexists. split; [reflexivity|].
  destruct (JsMap.get Z.eqb id (MemStorage.projects (store w))) as [existing|] eqn:E;
    simpl; [|reflexivity].
  f_equal. rewrite (values_set_present Project.id _ _ id existing _ Hp E).
  apply (Array_sort_map (fun p => getTime (Project.createdAt p))).
  - exact byCreatedAtDesc_key.
  - intros p Hin. destruct (Project.id p =? id) eqn:Ep; [|reflexivity].
    apply Z.eqb_eq in Ep. simpl.
    pose proof (tableOk_In_values Project.id _ _ p Hp Hin) as Hg.
    rewrite Ep, E in Hg. now injection Hg as ->.
Qed.

(** X10. In every state a process can reach, changing the status of a
    contact leaves the listing of contacts as it was except that the
    contact's record shows the new status, at the place it had; an
    unknown id leaves the listing alone. *)
Theorem updateContactStatus_keeps_the_place_in_the_listing
  (clock : nat -> Date) (calls : list Call) (n : nat) (id : Z) (status : string) :
  let w := snd (run clock calls (mkWorld n MemStorage.init)) in
  exists listed,
    MemStorage.getContacts w = (Fulfilled listed, w) /\
    fst (MemStorage.getContacts (snd (MemStorage.updateContactStatus id status w)))
    = Fulfilled
        (map (fun c =>
                if ContactSubmission.id c =? id
                then MemStorage.withStatus c status else c)
           listed).
Proof.
  intro w. destruct (reachable_wellFormed clock calls n) as [_ [_ Hc]]. fold w in Hc.
  settle. eexists. split; [reflexivity|].
  destruct (JsMap.get Z.eqb id (MemStorage.contacts (store w))) as [existing|] eqn:E; simpl.
  - f_equal.
    rewrite (values_set_present ContactSubmission.id _ _ id existing _ Hc E).
    rewrite <- (Array_sort_map (fun c => getTime (ContactSubmission.createdAt c))
                  MemStorage.contactByCreatedAtDesc contactByCreatedAtDesc_key).
    + f_equal. apply map_ext_in. intros c Hin.
      destruct (ContactSubmission.id c =? id) eqn:Ec; [|reflexivity].
      apply Z.eqb_eq in Ec.
      pose proof (tableOk_In_values ContactSubmission.id _ _ c Hc Hin) as Hg.
      rewrite Ec, E in Hg. now injection Hg as ->.
    + intros c _. now destruct (ContactSubmission.id c =? id).
  - f_equal.
    rewrite <- (Array_sort_map (fun c => getTime (ContactSubmission.createdAt c))
                  MemStorage.contactByCreatedAtDesc contactByCreatedAtDesc_key).
    + f_equal. rewrite <- (map_id (JsMap.values _)) at 1.
      apply map_ext_in. intros c Hin.
      destruct (ContactSubmission.id c =? id) eqn:Ec; [|reflexivity].
      apply Z.eqb_eq in Ec.
      pose proof (tableOk_In_values ContactSubmission.id _ _ c Hc Hin) as Hg.
      rewrite Ec, E in Hg. discriminate.
    + intros c _. now destruct (ContactSubmission.id c =? id).
Qed.

(** ** Users *)

(** X11. [upsertUser] is rejected with "User ID is required", and
    changes nothing, exactly when the payload has no id or an empty one.
    Otherwise it is fulfilled with a user that carries the id and both
    stamps, [getUser] returns that user for the id, every other id
    resolves as before, and projects, media and contacts are
    untouched. *)
Theorem upsertUser_needs_an_id_and_is_found_by_it
  (clock : nat -> Date) (userData : UpsertUser.t) (w : World MemStorage.t) :
  match UpsertUser.id userData with
  | None =>
      MemStorage.upsertUser clock userData w
      = (Rejected (mkError "User ID is required"), w)
  | Some id =>
      if (id =? "")%string
      then MemStorage.upsertUser clock userData w
           = (Rejected (mkError "User ID is required"), w)
      else
        exists u w',
          MemStorage.upsertUser clock userData w = (Fulfilled u, w') /\
          User.id u = id /\
          User.createdAt u <> None /\
          User.updatedAt u <> None /\
          MemStorage.getUser id w' = (Fulfilled (Some u), w') /\
          (forall other, other <> id ->
             fst (MemStorage.getUser other w') = fst (MemStorage.getUser other w)) /\
          MemStorage.projects (store w') = MemStorage.projects (store w) /\
          MemStorage.media (store w') = MemStorage.media (store w) /\
          MemStorage.contacts (store w') = MemStorage.contacts (store w)
  end.
Proof.
  unfold MemStorage.upsertUser.
  destruct (UpsertUser.id userData) as [id|]; simpl; [|reflexivity].
  destruct (id =? "")%string; [reflexivity|].
  settle.
  destruct (JsMap.get String.eqb id (MemStorage.users (store w)))
    as [[i e f l p [created|] u]|]; simpl;
    do 2 eexists; (split; [reflexivity|]); simpl;
    (split; [reflexivity|]); (split; [discriminate|]); (split; [discriminate|]);
    (split; [now rewrite (get_set_same String.eqb String.eqb_eq)|]);
    (split; [|repeat split]);
    intros other N; now rewrite (get_set_other String.eqb String.eqb_eq).
Qed.

(** ** What every reachable state satisfies about users and stamps *)

Lemma stampedAt_later clock limit limit' c u :
  (limit <= limit')%nat -> stampedAt clock limit c u -> stampedAt clock limit' c u.
Proof. intros L [k [k' [H1 H2]]]. exists k, k'. split; [lia|exact H2]. Qed.

Section ForallOverMaps.
Context {K V : Type}.
Variable eqb : K -> K -> bool.
Variable P : K * V -> Prop.

Lemma Forall_set k (v : V) m :
  Forall P m -> P (k, v) -> Forall P (JsMap.set eqb k v m).
Proof.
  intros Hm Hv. rewrite Forall_forall in *. intros e He.
  apply In_set in He. destruct He as [->|He]; auto.
Qed.

Lemma Forall_delete k (m : list (K * V)) :
  Forall P m -> Forall P (JsMap.delete eqb k m).
Proof.
  intro Hm. rewrite Forall_forall in *. intros e He.
  unfold JsMap.delete in He. apply filter_In in He. now apply Hm.
Qed.

End ForallOverMaps.

Lemma orNull_Some_nonempty v id : orNull v = Some id -> id <> "".
Proof.
  destruct v as [s|]; simpl; [|discriminate].
  destruct (s =? "")%string eqn:E; [discriminate|].
  intros [= <-]. now apply String.eqb_neq.
Qed.

Ltac weaken_stamps :=
  match goal with
  | H : Forall _ ?m |- Forall _ ?m =>
      let x := fresh "x" in
      let Hx := fresh "Hx" in
      eapply Forall_impl; [|exact H]; simpl; intros x Hx;
      first
        [ eapply stampedAt_later; [|exact Hx]; simpl; lia
        | let c := fresh "c" in
          let u := fresh "u" in
          let Hc := fresh "Hc" in
          let Hu := fresh "Hu" in
          let Hs := fresh "Hs" in
          destruct Hx as [c [u [Hc [Hu Hs]]]]; exists c, u;
          split; [exact Hc|]; split; [exact Hu|];
          eapply stampedAt_later; [|exact Hs]; simpl; lia ]
  end.

(** One call keeps the stamps in order and never turns the count of
    clock readings back. *)
Lemma call_stamped (clock : nat -> Date) (c : Call) (w : World MemStorage.t) :
  stamped clock w ->
  stamped clock (snd (call clock c w)) /\ (ticks w <= ticks (snd (call clock c w)))%nat.
Proof.
  intros [Hp [[Hd Hu] Hs]].
  destruct c as [d|d|id d|id|d|id|d typed|id st]; unfold call, silent, assigned.
  - unfold MemStorage.upsertUser.
    destruct (orNull (UpsertUser.id d)) as [uid|] eqn:Eid;
      [|simpl; split; [repeat split; assumption|lia]].
    pose proof (orNull_Some_nonempty _ _ Eid) as Hne.
    settle.
    destruct (JsMap.get String.eqb uid (MemStorage.users (store w)))
      as [[i e f l p [created|] u]|] eqn:Eg; simpl.
    + apply (get_In String.eqb String.eqb_eq) in Eg.
      destruct (proj1 (Forall_forall _ _) Hs _ Eg)
        as [c0 [u0 [Hc0 [_ [k [k' [Hk [Hck _]]]]]]]].
      simpl in Hc0. injection Hc0 as <-.
      split; [|lia]. unfold stamped. simpl. split; [weaken_stamps|]. split.
      * split; [now apply NoDup_keys_set; [exact String.eqb_eq|]|].
        apply Forall_set; [exact Hu|]. simpl. repeat split; [exact Hne|discriminate|discriminate].
      * apply Forall_set; [weaken_stamps|]. simpl.
        exists created, (clock (ticks w)). repeat split.
        exists k, (ticks w). repeat split; [lia|lia|exact Hck].
    + split; [|lia]. unfold stamped. simpl. split; [weaken_stamps|]. split.
      * split; [now apply NoDup_keys_set; [exact String.eqb_eq|]|].
        apply Forall_set; [exact Hu|]. simpl. repeat split; [exact Hne|discriminate|discriminate].
      * apply Forall_set; [weaken_stamps|]. simpl.
        exists (clock (ticks w)), (clock (Datatypes.S (ticks w))). repeat split.
        exists (ticks w), (Datatypes.S (ticks w)). repeat split; lia.
    + split; [|lia]. unfold stamped. simpl. split; [weaken_stamps|]. split.
      * split; [now apply NoDup_keys_set; [exact String.eqb_eq|]|].
        apply Forall_set; [exact Hu|]. simpl. repeat split; [exact Hne|discriminate|discriminate].
      * apply Forall_set; [weaken_stamps|]. simpl.
        exists (clock (ticks w)), (clock (Datatypes.S (ticks w))). repeat split.
        exists (ticks w), (Datatypes.S (ticks w)). repeat split; lia.
  - settle. split; [|lia]. unfold stamped. simpl. split; [|split; [now split|weaken_stamps]].
    apply Forall_set; [weaken_stamps|]. simpl.
    exists (ticks w), (Datatypes.S (ticks w)). repeat split; lia.
  - settle.
    destruct (JsMap.get Z.eqb id (MemStorage.projects (store w))) as [existing|] eqn:E;
      simpl; [|split; [repeat split; assumption|lia]].
    apply (get_In Z.eqb Z.eqb_eq) in E.
    destruct (proj1 (Forall_forall _ _) Hp _ E) as [k [k' [Hk [Hck _]]]].
    simpl in Hck.
    split; [|lia]. unfold stamped. simpl. split; [|split; [now split|weaken_stamps]].
    apply Forall_set; [weaken_stamps|]. simpl.
    exists k, (ticks w). repeat split; [lia|lia|exact Hck].
  - settle. split; [|lia]. unfold stamped. simpl.
    split; [apply Forall_delete; exact Hp|]. split; [now split|exact Hs].
  - settle. split; [|lia]. unfold stamped. simpl.
    split; [weaken_stamps|]. split; [now split|weaken_stamps].
  - settle. split; [|lia]. unfold stamped. simpl.
    split; [exact Hp|]. split; [now split|exact Hs].
  - settle. split; [|lia]. unfold stamped. simpl.
    split; [weaken_stamps|]. split; [now split|weaken_stamps].
  - settle.
    destruct (JsMap.get Z.eqb id (MemStorage.contacts (store w))); simpl;
      (split; [repeat split; assumption|lia]).
Qed.

Lemma run_stamped (clock : nat -> Date) (calls : list Call) :
  forall w, stamped clock w -> stamped clock (snd (run clock calls w)).
Proof.
  induction calls as [|c calls IH]; intros w H; [exact H|].
  rewrite run_cons. simpl snd. apply IH. now apply call_stamped.
Qed.

Lemma reachable_stamped (clock : nat -> Date) (calls : list Call) (n : nat) :
  stamped clock (snd (run clock calls (mkWorld n MemStorage.init))).
Proof.
  apply run_stamped. repeat split; constructor.
Qed.

(** X12. In every state a process can reach, the user that [getUser]
    returns for an id carries that id, the id is not empty, both stamps
    are set, and no two stored users share an id. *)
Theorem stored_users_carry_their_id_and_stamps
  (clock : nat -> Date) (calls : list Call) (n : nat) (id : string) :
  let w := snd (run clock calls (mkWorld n MemStorage.init)) in
  match fst (MemStorage.getUser id w) with
  | Fulfilled (Some u) =>
      User.id u = id /\ id <> "" /\
      exists created updated,
        User.createdAt u = Some created /\ User.updatedAt u = Some updated
  | Fulfilled None => True
  | Rejected _ => False
  end /\
  NoDup (JsMap.keys (MemStorage.users (store w))).
Proof.
  intro w. destruct (reachable_stamped clock calls n) as [_ [[Hd Hu] Hs]].
  fold w in Hd, Hu, Hs. split; [|exact Hd]. settle.
  destruct (JsMap.get String.eqb id (MemStorage.users (store w))) as [u|] eqn:E; [|exact I].
  apply (get_In String.eqb String.eqb_eq) in E.
  destruct (proj1 (Forall_forall _ _) Hu _ E) as [H1 [H2 _]].
  destruct (proj1 (Forall_forall _ _) Hs _ E) as [c [t [Hc [Ht _]]]].
  simpl in *. split; [exact H1|]. split; [exact H2|]. now exists c, t.
Qed.

Lemma clock_monotone (clock : nat -> Date) :
  (forall n, getTime (clock n) <= getTime (clock (Datatypes.S n))) ->
  forall k k', (k <= k')%nat -> getTime (clock k) <= getTime (clock k').
Proof.
  intros mono k k' H. induction H as [|k' H IH]; [lia|].
  specialize (mono k'). lia.
Qed.

(** X13. Under a clock that never runs backwards, in every state a
    process can reach, no stored project and no stored user has an
    [updatedAt] earlier than its [createdAt]. *)
Theorem updatedAt_is_never_before_createdAt
  (clock : nat -> Date) (calls : list Call) (n : nat) :
  (forall k, getTime (clock k) <= getTime (clock (Datatypes.S k))) ->
  let w := snd (run clock calls (mkWorld n MemStorage.init)) in
  Forall (fun p => getTime (Project.createdAt p) <= getTime (Project.updatedAt p))
    (JsMap.values (MemStorage.projects (store w))) /\
  Forall (fun u =>
            exists created updated,
              User.createdAt u = Some created /\ User.updatedAt u = Some updated /\
              getTime created <= getTime updated)
    (JsMap.values (MemStorage.users (store w))).
Proof.
  intros mono w. destruct (reachable_stamped clock calls n) as [Hp [_ Hs]].
  fold w in Hp, Hs. unfold JsMap.values. split; apply Forall_map.
  - eapply Forall_impl; [|exact Hp]. simpl.
    intros e [k [k' [Hk [-> ->]]]]. apply (clock_monotone clock mono). lia.
  - eapply Forall_impl; [|exact Hs]. simpl.
    intros e [c [t [Hc [Ht [k [k' [Hk [-> ->]]]]]]]].
    exists (clock k), (clock k'). repeat split; try assumption.
    apply (clock_monotone clock mono). lia.
Qed.

(** X13 on a run that creates, deletes and creates again under the
    ticking clock. *)
Lemma updatedAt_is_never_before_createdAt_witness :
  (forall k, getTime (tickingClock k) <= getTime (tickingClock (Datatypes.S k))) /\
  Forall (fun p => getTime (Project.createdAt p) <= getTime (Project.updatedAt p))
    (JsMap.values
       (MemStorage.projects (store (snd (run tickingClock createDeleteCreate start))))) /\
  Forall (fun u =>
            exists created updated,
              User.createdAt u = Some created /\ User.updatedAt u = Some updated /\
              getTime created <= getTime updated)
    (JsMap.values
       (MemStorage.users (store (snd (run tickingClock createDeleteCreate start))))).
Proof.
  assert (H : forall k, getTime (tickingClock k) <= getTime (tickingClock (Datatypes.S k))).
  { intro k. unfold tickingClock. cbn [getTime]. lia. }
  split; [exact H|].
  exact (updatedAt_is_never_before_createdAt tickingClock createDeleteCreate 0%nat H).
Defined.

(** ** The slug the routes derive from a title *)

Ltac every_char c :=
  destruct c as [[] [] [] [] [] [] [] []]; vm_compute; try reflexivity; try discriminate.

Lemma slugChar_is_fixed c :
  isSlugChar c = true -> lowerChar c = c /\ isSpace c = false.
Proof. every_char c; intros _; split; reflexivity. Qed.

Lemma lowerChar_keeps_space c : isSpace (lowerChar c) = isSpace c.
Proof. every_char c. Qed.

Lemma lowerChar_lowerChar c : lowerChar (lowerChar c) = lowerChar c.
Proof. every_char c. Qed.

Lemma toLowerCase_append a b :
  toLowerCase (a ++ b) = (toLowerCase a ++ toLowerCase b)%string.
Proof. induction a as [|c a IH]; simpl; [reflexivity|]. now rewrite IH. Qed.

Lemma toLowerCase_toLowerCase s : toLowerCase (toLowerCase s) = toLowerCase s.
Proof.
  induction s as [|c s IH]; simpl; [reflexivity|].
  now rewrite lowerChar_lowerChar, IH.
Qed.

Lemma toLowerCase_length s : String.length (toLowerCase s) = String.length s.
Proof. induction s as [|c s IH]; simpl; [reflexivity|]. now rewrite IH. Qed.

Lemma replaceSpaceRuns_length inRun s :
  (String.length (replaceSpaceRuns inRun s) <= String.length s)%nat.
Proof.
  revert inRun. induction s as [|c s IH]; intro inRun; simpl; [lia|].
  destruct (isSpace c); [destruct inRun|]; simpl.
  - specialize (IH true). lia.
  - specialize (IH true). lia.
  - specialize (IH false). lia.
Qed.

Lemma stripNonSlug_length s :
  (String.length (stripNonSlug s) <= String.length s)%nat.
Proof.
  induction s as [|c s IH]; simpl; [lia|]. destruct (isSlugChar c); simpl; lia.
Qed.

Lemma stripNonSlug_alphabet s : allChars isSlugChar (stripNonSlug s) = true.
Proof.
  induction s as [|c s IH]; simpl; [reflexivity|].
  destruct (isSlugChar c) eqn:E; simpl; [now rewrite E|exact IH].
Qed.

Lemma slug_alphabet_is_fixed s :
  allChars isSlugChar s = true ->
  toLowerCase s = s /\
  (forall inRun, replaceSpaceRuns inRun s = s) /\
  stripNonSlug s = s.
Proof.
  induction s as [|c s IH]; simpl; intro H; [repeat split|].
  apply andb_true_iff in H. destruct H as [Hc Hs].
  destruct (IH Hs) as [H1 [H2 H3]].
  destruct (slugChar_is_fixed c Hc) as [Hl Hsp].
  rewrite Hl, Hsp, Hc, H1, H3. repeat split. intro inRun. now rewrite H2.
Qed.

(** X15. A derived slug consists of the characters a-z, 0-9 and the
    hyphen only, and is never longer than the title. *)
Theorem slugOf_alphabet_and_length (title : string) :
  allChars isSlugChar (slugOf title) = true /\
  (String.length (slugOf title) <= String.length title)%nat.
Proof.
  unfold slugOf. split; [apply stripNonSlug_alphabet|].
  pose proof (stripNonSlug_length (replaceSpaceRuns false (toLowerCase title))).
  pose proof (replaceSpaceRuns_length false (toLowerCase title)).
  pose proof (toLowerCase_length title). lia.
Qed.

(** X16. Deriving a slug from a slug gives the slug back: a title that
    already is a slug is kept as it is, so renaming a project to its own
    slug does not change the slug. *)
Theorem slugOf_is_idempotent (title : string) : slugOf (slugOf title) = slugOf title.
Proof.
  pose proof (stripNonSlug_alphabet (replaceSpaceRuns false (toLowerCase title))) as H.
  fold (slugOf title) in H.
  destruct (slug_alphabet_is_fixed _ H) as [H1 [H2 H3]].
  unfold slugOf at 1. now rewrite H1, H2, H3.
Qed.

Lemma replaceSpaceRuns_plain p :
  allChars (fun c => negb (isSpace c)) p = true ->
  forall inRun, replaceSpaceRuns inRun p = p.
Proof.
  induction p as [|c p IH]; simpl; intros Hp inRun; [reflexivity|].
  apply andb_true_iff in Hp. destruct Hp as [Hc Hp].
  apply negb_true_iff in Hc. rewrite Hc. now rewrite (IH Hp).
Qed.

Lemma replaceSpaceRuns_append_plain inRun a p :
  allChars (fun c => negb (isSpace c)) p = true ->
  replaceSpaceRuns inRun (a ++ p) = (replaceSpaceRuns inRun a ++ p)%string.
Proof.
  intro Hp. revert inRun. induction a as [|c a IH]; intro inRun; simpl.
  - now apply replaceSpaceRuns_plain.
  - destruct (isSpace c); [destruct inRun|]; simpl; now rewrite IH.
Qed.

Lemma stripNonSlug_append a b :
  stripNonSlug (a ++ b) = (stripNonSlug a ++ stripNonSlug b)%string.
Proof.
  induction a as [|c a IH]; simpl; [reflexivity|].
  destruct (isSlugChar c); simpl; now rewrite IH.
Qed.

Lemma append_empty (s : string) : (s ++ "")%string = s.
Proof. induction s as [|c s IH]; simpl; [reflexivity|]. now rewrite IH. Qed.

Lemma no_trace_suffix p :
  allChars leavesNoTrace p = true ->
  allChars (fun c => negb (isSpace c)) (toLowerCase p) = true /\
  stripNonSlug (toLowerCase p) = "".
Proof.
  induction p as [|c p IH]; simpl; intro H; [split; reflexivity|].
  apply andb_true_iff in H. destruct H as [Hc Hp].
  unfold leavesNoTrace in Hc. apply andb_true_iff in Hc. destruct Hc as [H1 H2].
  destruct (IH Hp) as [IH1 IH2].
  rewrite lowerChar_keeps_space, H1. apply negb_true_iff in H2. rewrite H2.
  now split.
Qed.

(** X17. Slugs collide: two titles that differ only in the case of their
    letters get one slug, and so do a title and the same title followed
    by characters that are neither white space nor, once lowered, in
    a-z, 0-9 or the hyphen; a title made of such characters alone gets
    the empty slug. *)
Theorem slugOf_ignores_case_and_trailing_punctuation (a b p : string) :
  toLowerCase a = toLowerCase b ->
  allChars leavesNoTrace p = true ->
  slugOf (a ++ p) = slugOf b /\ slugOf p = "".
Proof.
  intros Hab Hp. destruct (no_trace_suffix p Hp) as [H1 H2].
  unfold slugOf. split.
  - rewrite toLowerCase_append, (replaceSpaceRuns_append_plain _ _ _ H1).
    rewrite stripNonSlug_append, H2, append_empty. now rewrite Hab.
  - now rewrite (replaceSpaceRuns_plain _ H1).
Qed.

(** X17 on "Hello World" and "hello world!?". *)
Lemma slugOf_ignores_case_and_trailing_punctuation_witness :
  toLowerCase "hello world" = toLowerCase "Hello World" /\
  allChars leavesNoTrace "!?" = true /\
  slugOf ("hello world" ++ "!?") = slugOf "Hello World" /\ slugOf "!?" = "".
Proof.
  split; [reflexivity|]. split; [reflexivity|].
  apply (slugOf_ignores_case_and_trailing_punctuation "hello world" "Hello World" "!?");
    reflexivity.
Defined.

(** The slug of the specification's example. *)
Example slugOf_my_first_project :
  slugOf "My First Project" = "my-first-project" /\
  slugOf "  Caf  au lait, 2nd ed. " = "-caf-au-lait-2nd-ed-".
Proof. split; reflexivity. Qed.

(** ** The public routes *)

(** X18. [GET /api/projects] and [GET /api/projects/:slug] never change
    the store and never answer 500.  The list route answers 200 with
    exactly the stored projects whose status is "published"; the slug
    route answers either 404 "Project not found" or 200 with a stored
    project that has the slug and is published: a draft is never
    served. *)
Theorem public_routes_serve_published_projects_only (slug : string) (w : World MemStorage.t) :
  let stored := JsMap.values (MemStorage.projects (store w)) in
  (exists listed,
     getPublicProjects w = (mkResponse 200 (ProjectList listed), w) /\
     forall p, In p listed <-> In p stored /\ Project.status p = "published") /\
  (getPublicProject slug w = (mkResponse 404 (Message "Project not found"), w) \/
   exists p,
     getPublicProject slug w = (mkResponse 200 (OneProject p), w) /\
     In p stored /\ Project.slug p = slug /\ Project.status p = "published").
Proof.
  intro stored. split.
  - settle. eexists. split; [reflexivity|]. intro p.
    pose proof (Array_sort_perm MemStorage.byCreatedAtDesc
                  (filter (fun p => (Project.status p =? "published")%string) stored)) as HP.
    fold stored. split.
    + intro H. apply (Permutation_in _ HP) in H. apply filter_In in H.
      destruct H as [H1 H2]. apply String.eqb_eq in H2. now split.
    + intros [H1 H2]. apply (Permutation_in _ (Permutation_sym HP)).
      apply filter_In. split; [exact H1|]. now apply String.eqb_eq.
  - settle. unfold JsMap.find. fold stored.
    pose proof (find_first (fun p => (Project.slug p =? slug)%string) stored) as H.
    destruct (List.find (fun p => (Project.slug p =? slug)%string) stored) as [p|];
      [|now left].
    destruct (Project.status p =? "published")%string eqn:E; [|now left].
    right. exists p. split; [reflexivity|].
    destruct H as [b [a [Hs [Hp _]]]].
    split; [rewrite Hs; apply in_or_app; right; now left|].
    split; [now apply String.eqb_eq|now apply String.eqb_eq].
Qed.

(** X19. When the project stored first under a slug is not published,
    [GET /api/projects/:slug] answers 404, whatever was stored under the
    same slug later: a published project behind an older draft with its
    slug cannot be reached. *)
Theorem an_older_draft_hides_a_published_project
  (slug : string) (w : World MemStorage.t)
  (before after : list Project.t) (draft : Project.t) :
  JsMap.values (MemStorage.projects (store w)) = before ++ draft :: after ->
  Forall (fun q => Project.slug q <> slug) before ->
  Project.slug draft = slug ->
  Project.status draft <> "published" ->
  getPublicProject slug w = (mkResponse 404 (Message "Project not found"), w).
Proof.
  intros Hs Hb Hd Hst. settle. unfold JsMap.find. rewrite Hs.
  assert (F : List.find (fun p => (Project.slug p =? slug)%string) (before ++ draft :: after)
              = Some draft).
  { clear Hs. induction Hb as [|q b Hq _ IH]; simpl.
    - apply String.eqb_eq in Hd. now rewrite Hd.
    - apply String.eqb_neq in Hq. now rewrite Hq. }
  rewrite F. apply String.eqb_neq in Hst. now rewrite Hst.
Qed.

(** X19 on the store after "My First Project" was created as a draft and
    "My First Project!" as published, both with slug my-first-project. *)
Lemma an_older_draft_hides_a_published_project_witness :
  exists draft published,
    JsMap.values
      (MemStorage.projects (store (snd (run tickingClock draftThenPublished start))))
    = [] ++ draft :: [published] /\
    Forall (fun q => Project.slug q <> "my-first-project") [] /\
    Project.slug draft = "my-first-project" /\
    Project.status draft <> "published" /\
    Project.slug published = "my-first-project" /\
    Project.status published = "published" /\
    getPublicProject "my-first-project" (snd (run tickingClock draftThenPublished start))
    = (mkResponse 404 (Message "Project not found"),
       snd (run tickingClock draftThenPublished start)).
Proof.
  do 2 eexists.
  assert (H1 : Project.status
                 (mergeProject firstRow PartialInsertProject.empty (mkDate 1700000000001))
               <> "published") by discriminate.
  split; [reflexivity|]. split; [constructor|]. split; [reflexivity|].
  split; [exact H1|]. split; [reflexivity|]. split; [reflexivity|].
  apply (an_older_draft_hides_a_published_project "my-first-project"
           (snd (run tickingClock draftThenPublished start)) [] _ _ eq_refl
           (Forall_nil _) eq_refl H1).
Defined.

(** ** Authentication in development *)

(** X20. In development, a request reaches the handler of an admin route
    (behind [developmentAuthBypass] and [adminAuth]) exactly when it has
    a session whose [loggedOut] is not [true], and it reaches it as the
    mock user, whoever the request's user was; a request without a
    session is answered 401 although the bypass gave it the mock user.
    Outside development the two middlewares decide nothing themselves:
    the outcome is that of [isAuthenticated]. *)
Theorem admin_gate_in_and_out_of_development
  (isAuthenticated : Request -> Passed) (req : Request) :
  through (developmentAuthBypass true) (adminAuth true isAuthenticated) req
  = match session req with
    | Some s =>
        if loggedOut s
        then Answered (mkResponse 401 (Message "Not authenticated"))
        else Next {| session := session req; user := Some mockClaims |}
    | None => Answered (mkResponse 401 (Message "Not authenticated"))
    end /\
  developmentAuthBypass true {| session := None; user := user req |}
  = Next {| session := None; user := Some mockClaims |} /\
  through (developmentAuthBypass false) (adminAuth false isAuthenticated) req
  = isAuthenticated req.
Proof.
  settle. split; [|split; reflexivity].
  destruct req as [[[[]]|] u]; reflexivity.
Qed.

(** X21. In development, in every state a process can reach, for a
    request whose session is not marked logged out (or that has no
    session), [GET /api/auth/user] answers 200 with a user whose id is
    "mock-user-123": it creates that user when the store does not hold
    it, and a repeated request gets the same record and leaves the store
    as it is. *)
Theorem auth_user_route_creates_the_mock_user_once
  (clock : nat -> Date) (calls : list Call) (n : nat) (req : Request) :
  (forall s, session req = Some s -> loggedOut s = false) ->
  let w := snd (run clock calls (mkWorld n MemStorage.init)) in
  exists u w',
    getAuthUser true clock req w = (mkResponse 200 (UserOrNothing (Some u)), w') /\
    User.id u = "mock-user-123" /\
    MemStorage.getUser "mock-user-123" w' = (Fulfilled (Some u), w') /\
    getAuthUser true clock req w' = (mkResponse 200 (UserOrNothing (Some u)), w').
Proof.
  intros H w.
  assert (B : developmentAuthBypass true req
              = Next {| session := session req; user := Some mockClaims |}).
  { unfold developmentAuthBypass. destruct (session req) as [s|]; [|reflexivity].
    now rewrite (H s eq_refl). }
  destruct (reachable_stamped clock calls n) as [_ [[_ Hu] _]]. fold w in Hu.
  unfold getAuthUser. rewrite B. unfold authUserHandler. simpl. settle.
  destruct (JsMap.get String.eqb "mock-user-123" (MemStorage.users (store w)))
    as [u|] eqn:E; simpl.
  - exists u, w. rewrite E. simpl. repeat split.
    apply (get_In String.eqb String.eqb_eq) in E.
    exact (proj1 (proj1 (Forall_forall _ _) Hu _ E)).
  - rewrite E. simpl. do 2 eexists. split; [reflexivity|]. simpl.
    rewrite (get_set_same String.eqb String.eqb_eq). simpl. repeat split.
Qed.

(** X21 for a request with a fresh session on the empty store. *)
Lemma auth_user_route_creates_the_mock_user_once_witness :
  (forall s, session freshRequest = Some s -> loggedOut s = false) /\
  exists u w',
    getAuthUser true tickingClock freshRequest (snd (run tickingClock [] start))
    = (mkResponse 200 (UserOrNothing (Some u)), w') /\
    User.id u = "mock-user-123" /\
    MemStorage.getUser "mock-user-123" w' = (Fulfilled (Some u), w') /\
    getAuthUser true tickingClock freshRequest w'
    = (mkResponse 200 (UserOrNothing (Some u)), w').
Proof.
  assert (H : forall s, session freshRequest = Some s -> loggedOut s = false).
  { intros s [= <-]. reflexivity. }
  split; [exact H|].
  exact (auth_user_route_creates_the_mock_user_once tickingClock [] 0%nat freshRequest H).
Defined.

(** X22. Outside development [GET /api/auth/user] never writes to the
    store and never answers 500: without a user on the request it answers
    401, otherwise 200 with what [getUser] finds under the user's [sub],
    which may be nothing. *)
Theorem auth_user_route_only_reads_outside_development
  (clock : nat -> Date) (req : Request) (w : World MemStorage.t) :
  getAuthUser false clock req w
  = (match user req with
     | None => mkResponse 401 (Message "Not authenticated")
     | Some claims =>
         mkResponse 200
           (UserOrNothing
              match sub claims with
              | Some userId => JsMap.get String.eqb userId (MemStorage.users (store w))
              | None => None
              end)
     end, w).
Proof.
  unfold getAuthUser, developmentAuthBypass, authUserHandler.
  destruct (user req) as [claims|]; [|reflexivity].
  settle. destruct (sub claims) as [userId|]; simpl.
  - now destruct (JsMap.get String.eqb userId (MemStorage.users (store w))).
  - reflexivity.
Qed.

(** ** The project editor *)

Lemma trimEnd_trimEnd s : trimEnd (trimEnd s) = trimEnd s.
Proof.
  induction s as [|c s IH]; simpl; [reflexivity|].
  destruct (trimEnd s) as [|d r] eqn:E.
  - destruct (isSpace c) eqn:Ec; simpl; [reflexivity|]. now rewrite Ec.
  - simpl in *. now rewrite IH.
Qed.

Lemma trimEnd_keeps_head c s :
  isSpace c = false -> exists r, trimEnd (String c s) = String c r.
Proof.
  intro H. simpl. destruct (trimEnd s) as [|d r]; rewrite ?H; eauto.
Qed.

Lemma trimStart_head s :
  trimStart s = "" \/ exists c r, trimStart s = String c r /\ isSpace c = false.
Proof.
  induction s as [|c s IH]; simpl; [now left|].
  destruct (isSpace c) eqn:E; [exact IH|]. right. now exists c, s.
Qed.

Lemma trim_trim s : trim (trim s) = trim s.
Proof.
  unfold trim. destruct (trimStart_head s) as [H|[c [r [H Hc]]]]; rewrite H.
  - reflexivity.
  - destruct (trimEnd_keeps_head c r Hc) as [r' Hr]. rewrite Hr at 1.
    simpl trimStart. rewrite Hc. rewrite <- Hr. apply trimEnd_trimEnd.
Qed.

Lemma includes_In tag l : includes tag l = true <-> In tag l.
Proof.
  unfold includes. rewrite existsb_exists. split.
  - intros [x [Hx E]]. apply String.eqb_eq in E. now subst.
  - intro H. exists tag. split; [exact H|apply String.eqb_refl].
Qed.

Lemma filter_absent tag (l : list string) :
  ~ In tag l -> filter (fun t => negb (t =? tag)%string) l = l.
Proof.
  induction l as [|x l IH]; simpl; intro H; [reflexivity|].
  destruct (x =? tag)%string eqn:E.
  - apply String.eqb_eq in E. exfalso. apply H. now left.
  - simpl. rewrite IH; [reflexivity|]. intro Hin. apply H. now right.
Qed.

(** X23. Editing the tag list of a project keeps it free of duplicates:
    [handleAddTag] appends the trimmed input only when it is not empty
    and not yet in the list, so every tag it adds is non-empty and has
    no white space at either end; [handleRemoveTag] takes the tag out
    and nothing else, and undoes the adding of a tag that was new. *)
Theorem tag_editing_keeps_tags_distinct_and_trimmed (st : TagEditor) :
  NoDup (tags st) ->
  NoDup (tags (handleAddTag st)) /\
  (forall t, In t (tags (handleAddTag st)) ->
     In t (tags st) \/ (t = trim (newTag st) /\ t <> "" /\ trim t = t)) /\
  (forall t, NoDup (tags (handleRemoveTag t st)) /\
             (forall x, In x (tags (handleRemoveTag t st)) <-> In x (tags st) /\ x <> t)) /\
  (~ In (trim (newTag st)) (tags st) ->
   tags (handleRemoveTag (trim (newTag st)) (handleAddTag st)) = tags st).
Proof.
  intro Hd. unfold handleAddTag.
  destruct (trim (newTag st) =? "")%string eqn:E; simpl.
  - split; [exact Hd|]. split; [now left|]. split.
    + intro t. split; [now apply NoDup_filter|].
      intro x. rewrite filter_In, negb_true_iff, String.eqb_neq. tauto.
    + intro H. now apply filter_absent.
  - destruct (includes (trim (newTag st)) (tags st)) eqn:I; simpl.
    + split; [exact Hd|]. split; [now left|]. split.
      * intro t. split; [now apply NoDup_filter|].
        intro x. rewrite filter_In, negb_true_iff, String.eqb_neq. tauto.
      * intro H. now apply filter_absent.
    + assert (Hn : ~ In (trim (newTag st)) (tags st)).
      { intro H. apply includes_In in H. congruence. }
      split.
      * apply NoDup_app_remove_l with (l := []). simpl.
        apply Permutation_NoDup with (l := trim (newTag st) :: tags st).
        -- apply Permutation_cons_append.
        -- now constructor.
      * split.
        -- intros t Ht. apply in_app_or in Ht. destruct Ht as [Ht|[<-|[]]]; [now left|].
           right. split; [reflexivity|]. split; [now apply String.eqb_neq|apply trim_trim].
        -- split.
           ++ intro t. split; [now apply NoDup_filter|].
              intro x. rewrite filter_In, negb_true_iff, String.eqb_neq. tauto.
           ++ intros _. rewrite filter_app. simpl. rewrite String.eqb_refl. simpl.
              rewrite app_nil_r. now apply filter_absent.
Qed.

(** X23 on the list [React; Node.js] with " Stripe " typed in. *)
Lemma tag_editing_keeps_tags_distinct_and_trimmed_witness :
  NoDup ["React"; "Node.js"] /\
  tags (handleAddTag (mkTagEditor ["React"; "Node.js"] " Stripe "))
  = ["React"; "Node.js"; "Stripe"] /\
  NoDup (tags (handleAddTag (mkTagEditor ["React"; "Node.js"] " Stripe "))).
Proof.
  assert (H : NoDup ["React"; "Node.js"]).
  { repeat constructor; simpl; intuition discriminate. }
  split; [exact H|]. split; [reflexivity|].
  exact (proj1 (tag_editing_keeps_tags_distinct_and_trimmed
                  (mkTagEditor ["React"; "Node.js"] " Stripe ") H)).
Defined.

Section InsertTextFacts.
Context {U : Type}.

Lemma substring_in_order (a b : nat) (s : list U) :
  (a <= b <= List.length s)%nat ->
  substring a b s = firstn (b - a) (skipn a s).
Proof.
  intro H. unfold substring.
  rewrite (Nat.min_l a), (Nat.min_l b) by lia.
  rewrite Nat.max_r, Nat.min_l by lia. reflexivity.
Qed.

Lemma skipn_exact (a b : list U) (n : nat) :
  n = List.length a -> skipn n (a ++ b) = b.
Proof. intros ->. induction a as [|x a IH]; simpl; [reflexivity|exact IH]. Qed.

Lemma firstn_exact (a b : list U) (n : nat) :
  n = List.length a -> firstn n (a ++ b) = a.
Proof. intros ->. induction a as [|x a IH]; simpl; [reflexivity|now rewrite IH]. Qed.

(** X24. For a selection that lies within the content, [insertText]
    puts [before] in front of the selected text and [after] behind it
    and changes nothing else: the content grows by the two lengths, the
    text in front of the selection and the text behind it are what they
    were, and the selection range it sets covers exactly the text that
    was selected. *)
Theorem insertText_wraps_the_selection_and_keeps_it_selected
  (before after content : list U) (selectionStart selectionEnd : nat) :
  (selectionStart <= selectionEnd <= List.length content)%nat ->
  let newText := fst (insertText before after content selectionStart selectionEnd) in
  let range := snd (insertText before after content selectionStart selectionEnd) in
  List.length newText
  = (List.length content + List.length before + List.length after)%nat /\
  substring (fst range) (snd range) newText
  = substring selectionStart selectionEnd content /\
  substring 0 selectionStart newText = substring 0 selectionStart content /\
  substring selectionStart (fst range) newText = before /\
  substring (snd range) (snd range + List.length after) newText = after /\
  substringFrom (snd range + List.length after) newText
  = substringFrom selectionEnd content.
Proof.
  intros H newText range.
  set (P := firstn selectionStart content).
  set (S := firstn (selectionEnd - selectionStart) (skipn selectionStart content)).
  set (T := skipn selectionEnd content).
  assert (LP : List.length P = selectionStart).
  { unfold P. rewrite length_firstn. lia. }
  assert (LS : List.length S = (selectionEnd - selectionStart)%nat).
  { unfold S. rewrite length_firstn, length_skipn. lia. }
  assert (LT : List.length T = (List.length content - selectionEnd)%nat).
  { unfold T. apply length_skipn. }
  assert (N : newText = P ++ before ++ S ++ after ++ T).
  { unfold newText, insertText. simpl fst.
    rewrite (substring_in_order selectionStart selectionEnd content H).
    rewrite (substring_in_order 0 selectionStart content) by lia.
    simpl skipn. rewrite Nat.sub_0_r. reflexivity. }
  assert (L : List.length newText
              = (List.length content + List.length before + List.length after)%nat).
  { rewrite N. rewrite !length_app. lia. }
  assert (R1 : fst range = (selectionStart + List.length before)%nat) by reflexivity.
  assert (R2 : snd range = (selectionEnd + List.length before)%nat) by reflexivity.
  rewrite R1, R2. clearbody newText. subst newText. clear range R1 R2.
  split; [exact L|]. split; [|split; [|split; [|split]]].
  - rewrite substring_in_order by lia.
    rewrite (substring_in_order selectionStart selectionEnd content H). fold S.
    replace (P ++ before ++ S ++ after ++ T) with ((P ++ before) ++ S ++ after ++ T)
      by (now rewrite <- !app_assoc).
    rewrite skipn_exact by (rewrite length_app; lia).
    apply firstn_exact. lia.
  - rewrite !substring_in_order by lia. simpl skipn. rewrite !Nat.sub_0_r.
    fold P. apply firstn_exact. lia.
  - rewrite substring_in_order by lia.
    rewrite skipn_exact by lia. apply firstn_exact. lia.
  - rewrite substring_in_order by lia.
    replace (P ++ before ++ S ++ after ++ T) with ((P ++ before ++ S) ++ after ++ T)
      by (now rewrite <- !app_assoc).
    rewrite skipn_exact by (rewrite !length_app; lia).
    apply firstn_exact. lia.
  - unfold substringFrom. fold T.
    replace (P ++ before ++ S ++ after ++ T) with ((P ++ before ++ S ++ after) ++ T)
      by (now rewrite <- !app_assoc).
    apply skipn_exact. rewrite !length_app. lia.
Qed.

End InsertTextFacts.

(** X24 on five code units with the second and third selected and two
    asterisks on either side. *)
Lemma insertText_wraps_the_selection_and_keeps_it_selected_witness :
  (1 <= 3 <= List.length [104; 101; 108; 108; 111]%nat)%nat /\
  insertText [42; 42]%nat [42; 42]%nat [104; 101; 108; 108; 111]%nat 1 3
  = ([104; 42; 42; 101; 108; 42; 42; 108; 111]%nat, (3, 5)%nat) /\
  substring 3 5 (fst (insertText [42; 42]%nat [42; 42]%nat [104; 101; 108; 108; 111]%nat 1 3))
  = substring 1 3 [104; 101; 108; 108; 111]%nat.
Proof.
  assert (H : (1 <= 3 <= List.length [104; 101; 108; 108; 111]%nat)%nat)
    by (simpl; lia).
  split; [exact H|]. split; [reflexivity|].
  exact (proj1 (proj2 (insertText_wraps_the_selection_and_keeps_it_selected
                         [42; 42]%nat [42; 42]%nat [104; 101; 108; 108; 111]%nat 1 3 H))).
Defined.

(** ** Uploads *)

Lemma prefix_spec (word s : string) :
  String.prefix word s = true <-> exists rest, s = (word ++ rest)%string.
Proof.
  revert s. induction word as [|c word IH]; intro s; simpl.
  - split; [intros _; now exists s|now destruct s].
  - destruct s as [|d s]; simpl.
    + split; [discriminate|]. intros [r H]. discriminate.
    + destruct (Ascii.ascii_dec c d) as [->|N].
      * rewrite IH. split; intros [r H]; exists r; [now rewrite H|now injection H].
      * split; [discriminate|]. intros [r H]. injection H as H1 _. congruence.
Qed.

Lemma contains_spec (word s : string) :
  contains word s = true <-> exists front rest, s = (front ++ word ++ rest)%string.
Proof.
  induction s as [|d s IH]; cbn [contains].
  - rewrite orb_false_r, prefix_spec. split.
    + intros [r H]. now exists "", r.
    + intros [f [r H]]. destruct f as [|c f]; [now exists r|discriminate].
  - rewrite orb_true_iff, prefix_spec, IH. split.
    + intros [[r H]|[f [r H]]].
      * now exists "", r.
      * exists (String d f), r. simpl. now rewrite H.
    + intros [f [r H]]. destruct f as [|c f]; simpl in H.
      * left. now exists r.
      * right. injection H as _ H. now exists f, r.
Qed.

Lemma allowedTypes_test_spec (s : string) :
  allowedTypes_test s = true <->
  exists word front rest, In word allowedTypes /\ s = (front ++ word ++ rest)%string.
Proof.
  unfold allowedTypes_test. rewrite existsb_exists. split.
  - intros [w [Hw Hc]]. apply contains_spec in Hc. destruct Hc as [f [r H]].
    now exists w, f, r.
  - intros [w [f [r [Hw H]]]]. exists w. split; [exact Hw|].
    apply contains_spec. now exists f, r.
Qed.

(** X25. The upload filter lets a file through exactly when one of the
    twelve words (jpeg, jpg, png, gif, webp, svg, mp4, mov, avi, pdf,
    doc, docx) occurs somewhere in its lowered extension and one of them
    occurs somewhere in its mime type: neither has to be equal to an
    allowed type, and the two words need not be the same. *)
Theorem fileFilter_looks_for_a_word_anywhere
  (extname : string -> string) (file : UploadedFile) :
  fileFilter extname file = true <->
  (exists word front rest,
     In word allowedTypes /\
     toLowerCase (extname (originalname file)) = (front ++ word ++ rest)%string) /\
  (exists word front rest,
     In word allowedTypes /\ mimetype file = (front ++ word ++ rest)%string).
Proof.
  unfold fileFilter. rewrite andb_true_iff, !allowedTypes_test_spec. tauto.
Qed.

(** With the extensions Node reports for them: a macro-enabled Word file
    passes, a picture sent as [application/octet-stream] does not. *)
Example fileFilter_on_two_uploads :
  fileFilter (fun _ => ".docm")
    (mkUploadedFile "x" "notes.docm"
       "application/vnd.ms-word.document.macroEnabled.12" 10)
  = true /\
  fileFilter (fun _ => ".png")
    (mkUploadedFile "x" "photo.png" "application/octet-stream" 10)
  = false.
Proof. split; reflexivity. Qed.

(** X26. [POST /api/admin/media] without a file answers 400 and leaves
    the store alone.  With a file and a user it answers 201 with the
    stored record: its id is the value of the media counter, its url is
    "/uploads/" followed by the stored file name, its size is the byte
    count in decimal, its uploader is the user's [sub], and an alt text
    that is missing or empty is stored as null, never as the empty
    string. *)
Theorem upload_route_stores_what_multer_saved
  (clock : nat -> Date) (file : option UploadedFile) (altText : option string)
  (claims : Claims) (sess : option Session) (w : World MemStorage.t) :
  let req := {| session := sess; user := Some claims |} in
  match file with
  | None =>
      postMediaHandler clock file altText req w
      = (mkResponse 400 (Message "No file uploaded"), w)
  | Some f =>
      exists m w',
        postMediaHandler clock file altText req w = (mkResponse 201 (OneMedia m), w') /\
        Media.id m = MemStorage.nextMediaId (store w) /\
        Media.url m = ("/uploads/" ++ filename f)%string /\
        Media.filename m = filename f /\
        Media.originalName m = originalname f /\
        Media.mimeType m = mimetype f /\
        Media.size m = Number_toString (size f) /\
        Media.uploadedBy m = orNull (sub claims) /\
        Media.altText m = orNull altText /\
        Media.altText m <> Some "" /\
        MemStorage.getMediaById (Media.id m) w' = (Fulfilled (Some m), w')
  end.
Proof.
  intro req. destruct file as [f|]; [|reflexivity].
  settle. do 2 eexists. split; [reflexivity|]. simpl.
  do 7 (split; [reflexivity|]).
  assert (A : orNull (Some (orElse altText "")) = orNull altText).
  { unfold orElse, orNull. destruct altText as [s|]; [|reflexivity].
    destruct (s =? "")%string eqn:E; [reflexivity|now rewrite E]. }
  split; [exact A|]. split.
  - change (orNull (Some (orElse altText "")) <> Some ""). rewrite A.
    destruct altText as [s|]; simpl; [|discriminate].
    destruct (s =? "")%string eqn:E; [discriminate|].
    intros [= ->]. discriminate.
  - now rewrite (get_set_same Z.eqb Z.eqb_eq).
Qed.

(** ** The admin list *)

(** X27. Outside development [GET /api/admin/projects] never sends the
    list of projects: it sends what [isAuthenticated] answers, and when
    [isAuthenticated] lets the request pass it sends nothing at all.  In
    development it answers 200 with every stored project, drafts
    included, to any request, logged out or not.  Either way the store
    is left as it is. *)
Theorem admin_list_is_served_in_development_only
  (clock : nat -> Date) (isAuthenticated : Request -> Passed)
  (req : Request) (w : World MemStorage.t) :
  getAdminProjects false isAuthenticated req w
  = (match isAuthenticated req with
     | Answered res => Some res
     | Next _ => None
     end, w) /\
  exists everything,
    getAdminProjects true isAuthenticated req w
    = (Some (mkResponse 200 (ProjectList everything)), w) /\
    Permutation everything (JsMap.values (MemStorage.projects (store w))).
Proof.
  split.
  - unfold getAdminProjects, developmentAuthBypass. simpl.
    now destruct (isAuthenticated req).
  - unfold getAdminProjects, developmentAuthBypass. simpl.
    destruct (session req) as [[[]]|]; simpl; settle;
      eexists; (split; [reflexivity|]); apply Array_sort_perm.
Qed.
